(** * Todology: a model of [index.py]

    Todology imports the events of a Schoology calendar feed into Todoist.
    This file embeds the functions of [index.py] in Rocq and proves the
    properties its specification states about them.

    Python values that the program only moves around (configuration
    documents read by [yaml.safe_load], the ledger read by [json.load]) are
    terms of [value]; exceptions are results [Raise e]; the functions that
    print, touch files or talk to the network run in a state monad over
    [world]. *)

From Stdlib Require Import String Ascii List ZArith QArith Bool Lia Lqa.
Import ListNotations.
Local Open Scope string_scope.
Local Open Scope Z_scope.
Set Warnings "-register-all".

(** ** Exceptions and results *)

(** The exception classes the program can meet. [Exception_] is the plain
    [Exception(msg)] that [main] and [todoist_login] raise themselves;
    [External] stands for whatever a library call raises (an [OSError] of the
    file system, a network or parse error, a Todoist API error). *)
Inductive exn : Type :=
| KeyError
| TypeError
| AttributeError
| ValueError
| Exception_ (msg : string)
| External (what : string).

Inductive result (A : Type) : Type :=
| Ok (a : A)
| Raise (e : exn).
Arguments Ok {A} a.
Arguments Raise {A} e.

Definition rbind {A B} (r : result A) (k : A -> result B) : result B :=
  match r with
  | Ok a => k a
  | Raise e => Raise e
  end.

Declare Scope result_scope.
Delimit Scope result_scope with result.
Notation "x <- r ;; k" := (rbind r (fun x => k))
  (at level 61, r at next level, right associativity) : result_scope.

(** ** Python values *)

(** A document as [yaml.safe_load] or [json.load] builds it. A mapping is
    the list of its items in insertion order; its keys are strings, as are
    all keys of [DEFAULT_CONFIG]. Numbers other than integers behave as
    [VInt] in every operation of the program (neither a [dict] nor a
    [str]). *)
Inductive value : Type :=
| VNone
| VBool (b : bool)
| VInt (z : Z)
| VStr (s : string)
| VList (l : list value)
| VDict (items : list (string * value)).

Definition is_dict (v : value) : bool :=
  match v with VDict _ => true | _ => false end.

Definition is_str (v : value) : bool :=
  match v with VStr _ => true | _ => false end.

(** [d.get(key)] on the items of a mapping. *)
Fixpoint lookup (items : list (string * value)) (key : string) : option value :=
  match items with
  | [] => None
  | (k, v) :: rest => if String.eqb k key then Some v else lookup rest key
  end.

(** [d[key] = v] on the items of a mapping: an existing key keeps its place,
    a new key goes last. *)
Fixpoint store (items : list (string * value)) (key : string) (v : value)
  : list (string * value) :=
  match items with
  | [] => [(key, v)]
  | (k, w) :: rest =>
      if String.eqb k key then (k, v) :: rest else (k, w) :: store rest key v
  end.

(** [obj[key]] for a string key: only a mapping can answer; every other
    value raises [TypeError] (no string index, not subscriptable). *)
Definition getitem (obj : value) (key : string) : result value :=
  match obj with
  | VDict items =>
      match lookup items key with
      | Some v => Ok v
      | None => Raise KeyError
      end
  | _ => Raise TypeError
  end.

(** [obj[key] = v] for a string key. *)
Definition setitem (obj : value) (key : string) (v : value) : result value :=
  match obj with
  | VDict items => Ok (VDict (store items key v))
  | _ => Raise TypeError
  end.

(** [obj.setdefault(key, default)]: the value under [key], which is
    [default] (and is stored) when the key is new. Only a mapping has the
    method. The second component is the mapping afterwards. *)
Definition setdefault (obj : value) (key : string) (default : value)
  : result (value * value) :=
  match obj with
  | VDict items =>
      match lookup items key with
      | Some v => Ok (v, obj)
      | None => Ok (default, VDict (store items key default))
      end
  | _ => Raise AttributeError
  end.

(** ** [merge]

    [merge(source, destination)] walks [source.items()]. For a mapping
    [value] it takes [node = destination.setdefault(key, {})] and merges
    [value] into [node]; [node] is the object stored in [destination], so
    the merged node is written back under [key]. Any other [value] is
    assigned. The function returns [destination]. A [source] that is not a
    mapping has no [items]. *)
Fixpoint merge (source destination : value) {struct source} : result value :=
  match source with
  | VDict items =>
      (fix merge_items (items : list (string * value)) (destination : value)
           {struct items} : result value :=
         match items with
         | [] => Ok destination
         | (key, v) :: rest =>
             match v with
             | VDict _ =>
                 (nd <- setdefault destination key (VDict []);;
                  node <- merge v (fst nd);;
                  destination <- setitem (snd nd) key node;;
                  merge_items rest destination)%result
             | _ =>
                 (destination <- setitem destination key v;;
                  merge_items rest destination)%result
             end
         end) items destination
  | _ => Raise AttributeError
  end.

Definition DEFAULT_CONFIG : value :=
  VDict
    [ ("schoology", VDict [("calendar", VNone)]);
      ("todoist",
       VDict [ ("apiToken", VNone);
               ("project", VStr "Inbox");
               ("labels", VList [VStr "Todology"]) ]);
      ("storage", VStr "~/.todology") ].

(** ** Dates *)

(** A [datetime.date]. Python keeps [1 <= year <= 9999] and a day that
    exists in the month; the constructor [date(y, m, d)] raises
    [ValueError] otherwise. *)
Record date : Type := mkdate { year : Z; month : Z; day : Z }.

Definition is_leap (y : Z) : bool :=
  (y mod 4 =? 0) && (negb (y mod 100 =? 0) || (y mod 400 =? 0)).

Definition days_in_month (y m : Z) : Z :=
  if m =? 2 then (if is_leap y then 29 else 28)
  else if (m =? 4) || (m =? 6) || (m =? 9) || (m =? 11) then 30
  else 31.

Definition valid_date (d : date) : bool :=
  (1 <=? year d) && (year d <=? 9999) &&
  (1 <=? month d) && (month d <=? 12) &&
  (1 <=? day d) && (day d <=? days_in_month (year d) (month d)).

Definition date_new (y m d : Z) : result date :=
  if valid_date (mkdate y m d) then Ok (mkdate y m d) else Raise ValueError.

(** Dates compare by year, then month, then day. *)
Definition date_compare (a b : date) : comparison :=
  match year a ?= year b with
  | Eq => match month a ?= month b with
          | Eq => day a ?= day b
          | c => c
          end
  | c => c
  end.

(** [a >= b] *)
Definition date_ge (a b : date) : bool :=
  match date_compare a b with Lt => false | _ => true end.

(** [a < b] *)
Definition date_lt (a b : date) : bool :=
  match date_compare a b with Lt => true | _ => false end.

Definition digit (n : Z) : ascii := ascii_of_nat (48 + Z.to_nat (n mod 10)).

(** [str(d)], the ISO form [YYYY-MM-DD]. *)
Definition date_str (d : date) : string :=
  String (digit (year d / 1000)) (String (digit (year d / 100))
    (String (digit (year d / 10)) (String (digit (year d)) "")))
  ++ "-" ++ String (digit (month d / 10)) (String (digit (month d)) "")
  ++ "-" ++ String (digit (day d / 10)) (String (digit (day d)) "").

(** [start_of_last_month()], with [date.today()] as an argument. *)
Definition start_of_last_month (today : date) : result date :=
  let year := if 2 <=? month today then year today else year today - 1 in
  let month := if 2 <=? month today then month today - 1 else 12 in
  date_new year month 1.

(** ** Calendar components *)

(** What [comp['DTSTART'].dt] holds: a [date], or a [datetime] whose
    [.date()] drops the time of day. *)
Inductive moment : Type :=
| Date (d : date)
| Datetime (d : date) (hour minute second : Z).

(** [if isinstance(start, datetime): start = start.date()] *)
Definition to_date (start : moment) : date :=
  match start with
  | Datetime d _ _ _ => d
  | Date d => d
  end.

(** A subcomponent of the parsed calendar: the name of its Python class
    ([Event], [Todo], [Timezone], ...) and the five properties the program
    reads, each of which a feed may leave out. *)
Record component : Type := mkcomponent {
  class_name : string;
  DTSTART : option moment;
  UID : option string;
  SUMMARY : option string;
  DESCRIPTION : option string;
  URL : option string
}.

(** [comp[KEY]] *)
Definition prop {A} (field : option A) : result A :=
  match field with
  | Some a => Ok a
  | None => Raise KeyError
  end.

Record Assignment : Type := mkAssignment {
  uid : string;
  title : string;
  desc : string;
  due : date;
  url : string
}.

(** ** Operations on the ledger value *)

(** [s in container] for a string [s]. *)
Definition contains (container : value) (s : string) : result bool :=
  match container with
  | VList l =>
      Ok (existsb (fun v => match v with
                            | VStr t => String.eqb t s
                            | _ => false
                            end) l)
  | VDict items =>
      Ok (match lookup items s with Some _ => true | None => false end)
  | VStr t => Ok (match index 0 s t with Some _ => true | None => false end)
  | _ => Raise TypeError
  end.

(** [container.append(s)] *)
Definition append (container : value) (s : string) : result value :=
  match container with
  | VList l => Ok (VList (l ++ [VStr s]))
  | _ => Raise AttributeError
  end.

(** [for x in v]: the elements of a list, the keys of a mapping, the
    characters of a string. *)
Definition iterate (v : value) : result (list value) :=
  match v with
  | VList l => Ok l
  | VDict items => Ok (map (fun kv => VStr (fst kv)) items)
  | VStr s => Ok (map (fun c => VStr (String c "")) (list_ascii_of_string s))
  | _ => Raise TypeError
  end.

(** The ledger that holds the identifiers [ids]. *)
Definition ledger_of (ids : list string) : value := VList (map VStr ids).

(** [str.lstrip(chars)] removes leading characters for as long as they occur
    in [chars]. *)
Fixpoint lstrip (chars s : string) : string :=
  match s with
  | EmptyString => EmptyString
  | String c rest =>
      if existsb (Ascii.eqb c) (list_ascii_of_string chars)
      then lstrip chars rest
      else s
  end.

(** The URL that [main] opens for the configured calendar address. *)
Definition feed_url (calendar : string) : string :=
  "https://" ++ lstrip "webcal://" calendar.

(** ** The outside world *)

(** A task as the Todoist client holds it between [add_task] and
    [update]. *)
Record task : Type := mktask {
  task_id : Z;
  task_due_date : string;
  task_date_string : string;
  task_labels : list Z
}.

(** The calls that leave the process. *)
Inductive request : Type :=
| Login (token : string)
| Urlopen (url : string)
| GetProject (name : value)
| AddProject (name : value)
| GetLabel (name : value)
| AddLabel (name : value)
| AddTask (project : Z) (content : string)
| Update (t : task).

(** What a path names on disk. A file may refuse to be opened. *)
Inductive node : Type :=
| NoEntry
| Directory
| File (openable : bool) (text : string).

(** The state a run changes: the disk, what was printed, the requests sent
    so far (oldest first) and the global [already_imported]. *)
Record world : Type := mkworld {
  files : string -> node;
  stdout : list string;
  network : list request;
  already_imported : value
}.

(** What a run is given and cannot change: the clock, the text of
    [config.yml] as [yaml.safe_load] reads it (or the fault of opening or
    parsing it), the library functions, and the answer of every remote call
    as a function of the requests sent before it. *)
Record env : Type := mkenv {
  today : date;
  config_yml : result value;
  expanduser : string -> string;
  json_load : string -> result value;
  json_dump : value -> string;
  login_with_api_token : list request -> string -> result unit;
  urlopen : list request -> string -> result (list component);
  user_get_project : list request -> value -> result (option Z);
  user_add_project : list request -> value -> result Z;
  user_get_label : list request -> value -> result (option Z);
  user_add_label : list request -> value -> result Z;
  project_add_task : list request -> Z -> string -> result task;
  task_update : list request -> task -> result unit
}.

(** ** The monad of the program: state, and exceptions that keep the state *)

Definition M (A : Type) : Type := world -> result A * world.

Definition ret {A} (a : A) : M A := fun w => (Ok a, w).

Definition bind {A B} (m : M A) (k : A -> M B) : M B :=
  fun w =>
    match m w with
    | (Ok a, w') => k a w'
    | (Raise e, w') => (Raise e, w')
    end.

Definition lift {A} (r : result A) : M A := fun w => (r, w).

Definition raise {A} (e : exn) : M A := lift (Raise e).

Declare Scope program_scope.
Delimit Scope program_scope with program.
Notation "x <- m ;; k" := (bind m (fun x => k))
  (at level 61, m at next level, right associativity) : program_scope.
Notation "m ;; k" := (bind m (fun _ => k))
  (at level 61, right associativity) : program_scope.
Local Open Scope program_scope.

Definition print (line : string) : M unit :=
  fun w => (Ok tt, mkworld (files w) (stdout w ++ [line]) (network w)
                           (already_imported w)).

(** A remote call: the request joins the history, and the outside world
    answers from the history before it. *)
Definition call {A} (r : request) (answer : list request -> result A) : M A :=
  fun w => (answer (network w),
            mkworld (files w) (stdout w) (network w ++ [r])
                    (already_imported w)).

Definition get_already_imported : M value :=
  fun w => (Ok (already_imported w), w).

Definition set_already_imported (v : value) : M unit :=
  fun w => (Ok tt, mkworld (files w) (stdout w) (network w) v).

Definition write_node (path : string) (n : node) (w : world) : world :=
  mkworld (fun p => if String.eqb p path then n else files w p)
          (stdout w) (network w) (already_imported w).

(** [makedirs(directory, exist_ok=True)] *)
Definition makedirs (directory : string) : M unit :=
  fun w =>
    match files w directory with
    | File _ _ => (Raise (External "FileExistsError"), w)
    | _ => (Ok tt, write_node directory Directory w)
    end.

(** [with open(path, 'w') as f: f.write(text)] *)
Definition write_file (path text : string) : M unit :=
  fun w =>
    match files w path with
    | Directory => (Raise (External "IsADirectoryError"), w)
    | File false _ => (Raise (External "PermissionError"), w)
    | _ => (Ok tt, write_node path (File true text) w)
    end.

(** [for x in xs: body(x)] *)
Fixpoint for_each {A} (xs : list A) (body : A -> M unit) : M unit :=
  match xs with
  | [] => ret tt
  | x :: rest => body x ;; for_each rest body
  end.

(** [[f(x) for x in xs]] *)
Fixpoint comprehension {A B} (xs : list A) (f : A -> M B) : M (list B) :=
  match xs with
  | [] => ret []
  | x :: rest => y <- f x ;; ys <- comprehension rest f ;; ret (y :: ys)
  end.

(** ** The functions of [index.py] *)

(** [load_imported_uids(path)]: [open] stands before the [try]; the bare
    [except] answers every fault of [json.load] with [[]]. *)
Definition load_imported_uids (e : env) (path : string) : M value :=
  fun w =>
    match files w path with
    | File openable text =>
        if openable then
          match json_load e text with
          | Ok ret => (Ok (match ret with VNone => VList [] | _ => ret end), w)
          | Raise _ => (Ok (VList []), w)
          end
        else (Raise (External "PermissionError"), w)
    | _ => (Ok (VList []), w)
    end.

Definition store_imported_uids (e : env) (directory path : string) : M unit :=
  makedirs directory ;;
  ledger <- get_already_imported ;;
  write_file path (json_dump e ledger).

Definition unknown_type_warning (name : string) : string :=
  "WARNING: Unknown event type `" ++ name ++ "`. Ignoring.".

(** The body of the loop of [get_assignments] for a component of class
    [Event]: the assignment to append, if any. *)
Definition consider (e : env) (comp : component) : M (option Assignment) :=
  start <- lift (prop (DTSTART comp)) ;;
  let start := to_date start in
  id <- lift (prop (UID comp)) ;;
  ledger <- get_already_imported ;;
  seen <- lift (contains ledger id) ;;
  if seen then ret None
  else
    cutoff <- lift (start_of_last_month (today e)) ;;
    if date_ge start cutoff then
      uid <- lift (prop (UID comp)) ;;
      title <- lift (prop (SUMMARY comp)) ;;
      desc <- lift (prop (DESCRIPTION comp)) ;;
      url <- lift (prop (URL comp)) ;;
      ret (Some (mkAssignment uid title desc start url))
    else ret None.

Fixpoint get_assignments_from (e : env) (subcomponents : list component)
    (assignments : list Assignment) : M (list Assignment) :=
  match subcomponents with
  | [] => ret assignments
  | comp :: rest =>
      if negb (String.eqb (class_name comp) "Event") then
        print (unknown_type_warning (class_name comp)) ;;
        get_assignments_from e rest assignments
      else
        found <- consider e comp ;;
        match found with
        | Some a => get_assignments_from e rest (assignments ++ [a])
        | None => get_assignments_from e rest assignments
        end
  end.

Definition get_assignments (e : env) (cal : list component)
  : M (list Assignment) :=
  get_assignments_from e cal [].

Definition get_label (e : env) (name : value) : M Z :=
  label <- call (GetLabel name) (fun h => user_get_label e h name) ;;
  match label with
  | Some id => ret id
  | None => call (AddLabel name) (fun h => user_add_label e h name)
  end.

(** One turn of the loop of [todoist_add]. *)
Definition push (e : env) (project : Z) (labels : list Z)
    (assignment : Assignment) : M unit :=
  let content := "[" ++ title assignment ++ "](" ++ url assignment ++ ")" in
  t <- call (AddTask project content)
            (fun h => project_add_task e h project content) ;;
  let t := mktask (task_id t) (date_str (due assignment))
                  (date_str (due assignment)) (task_labels t ++ labels) in
  call (Update t) (fun h => task_update e h t) ;;
  ledger <- get_already_imported ;;
  ledger <- lift (append ledger (uid assignment)) ;;
  set_already_imported ledger.

(** Lines 182 to 186 of [todoist_add]: the project and the label ids. *)
Definition resolve (e : env) (projectName labels : value) : M (Z * list Z) :=
  project <- call (GetProject projectName)
                  (fun h => user_get_project e h projectName) ;;
  names <- lift (iterate labels) ;;
  labels <- comprehension names (get_label e) ;;
  project <- match project with
             | Some p => ret p
             | None => call (AddProject projectName)
                            (fun h => user_add_project e h projectName)
             end ;;
  ret (project, labels).

(** [todoist_add], the function under the decorator. [RateLimit] below
    models the decorator, which delays the call and hands through its
    result. *)
Definition todoist_add (e : env) (projectName labels : value)
    (assignments : list Assignment) : M unit :=
  pl <- resolve e projectName labels ;;
  for_each assignments (push e (fst pl) (snd pl)).

(** [todoist_login(apiKey, _times)], by recursion on [10 - _times], the
    number of retries still allowed: a [KeyError] is retried until
    [_times >= 10]. *)
Fixpoint todoist_login (e : env) (apiKey : string) (retries : nat) : M unit :=
  fun w =>
    match call (Login apiKey) (fun h => login_with_api_token e h apiKey) w with
    | (Raise KeyError, w') =>
        match retries with
        | O => (Raise (Exception_ "Unable to login to Todoist. (Got a KeyError 10 times!) Please try again."), w')
        | S n => todoist_login e apiKey n w'
        end
    | other => other
    end.

Definition STORAGE_FILE_NAMES_imported : string := "imported.json".

(** Where a library function needs a [str]. *)
Definition as_str (v : value) : result string :=
  match v with
  | VStr s => Ok s
  | _ => Raise TypeError
  end.

(** [config[section][key]] *)
Definition config_value (config : value) (section key : string) : result value :=
  (sec <- getitem config section ;; getitem sec key)%result.

(** Lines 214 to 225 of [main]: the merged and validated configuration, and
    the path of the ledger file. *)
Definition main_config (e : env) : M (value * string) :=
  doc <- lift (config_yml e) ;;
  config <- lift (merge doc DEFAULT_CONFIG) ;;
  config <- (if negb (is_dict config) then
               print "WARNING: Invalid config.yml. Ignoring." ;;
               ret DEFAULT_CONFIG
             else ret config) ;;
  storage <- lift (getitem config "storage") ;;
  storage <- lift (as_str storage) ;;
  config <- lift (setitem config "storage" (VStr (expanduser e storage))) ;;
  storage <- lift (getitem config "storage") ;;
  storage <- lift (as_str storage) ;;
  let imported_path := storage ++ "/" ++ STORAGE_FILE_NAMES_imported in
  apiToken <- lift (config_value config "todoist" "apiToken") ;;
  if negb (is_str apiToken) then raise (Exception_ "Invalid API Token!")
  else
    calendar <- lift (config_value config "schoology" "calendar") ;;
    if negb (is_str calendar) then raise (Exception_ "Invalid Calendar URL!")
    else ret (config, imported_path).

(** Lines 227 to 234: ledger, login, feed, filter. *)
Definition main_fetch (e : env) (config : value) (imported_path : string)
  : M (list Assignment) :=
  ledger <- load_imported_uids e imported_path ;;
  set_already_imported ledger ;;
  apiToken <- lift (config_value config "todoist" "apiToken") ;;
  apiToken <- lift (as_str apiToken) ;;
  todoist_login e apiToken 10 ;;
  calendar <- lift (config_value config "schoology" "calendar") ;;
  calendar <- lift (as_str calendar) ;;
  cal <- call (Urlopen (feed_url calendar))
              (fun h => urlopen e h (feed_url calendar)) ;;
  get_assignments e cal.

(** Lines 236 to 238: push, then persist the ledger. *)
Definition main_push (e : env) (config : value) (imported_path : string)
    (assignments : list Assignment) : M unit :=
  project <- lift (config_value config "todoist" "project") ;;
  labels <- lift (config_value config "todoist" "labels") ;;
  todoist_add e project labels assignments ;;
  storage <- lift (getitem config "storage") ;;
  storage <- lift (as_str storage) ;;
  store_imported_uids e storage imported_path.

Definition main (e : env) : M unit :=
  cp <- main_config e ;;
  assignments <- main_fetch e (fst cp) (snd cp) ;;
  main_push e (fst cp) (snd cp) assignments.

(** The state in which a process starts: a disk, nothing printed, nothing
    sent, [already_imported = None]. *)
Definition start (disk : string -> node) : world := mkworld disk [] [] VNone.

(** ** The decorator [rate_limited]

    Time is an explicit part of the state, in seconds, as rationals. The
    decorator reads [time.clock()], which is processor time on some
    platforms and elapsed real time on others, so the state carries both
    the real time [wall] and the reading [clock] of [time.clock()]. *)
Module RateLimit.

Local Open Scope Q_scope.

(** A stretch of time: [real] seconds pass while [time.clock()] advances
    by [counted]. *)
Record lapse : Type := mklapse { real : Q; counted : Q }.

(** [time.clock()] never runs backwards and never runs ahead of real
    time in a process with one thread. *)
Definition admissible (l : lapse) : Prop :=
  0 <= counted l /\ counted l <= real l.

(** The closure variable [last_time_called], the two clocks, and the log
    of the calls of the decorated function: the real time at which each
    began and ended, oldest first. *)
Record state : Type := mkstate {
  wall : Q;
  clock : Q;
  last_time_called : Q;
  calls : list (Q * Q)
}.

Definition pass (l : lapse) (s : state) : state :=
  mkstate (wall s + real l) (clock s + counted l) (last_time_called s)
          (calls s).

(** What the outside contributes to one invocation: the time since the
    previous event, how [time.sleep] behaves if it is called (it returns
    [oversleep] seconds late, [time.clock()] advancing by [sleep_counted]
    meanwhile), how long the decorated function runs, and whether it
    returns or raises. *)
Record invocation : Type := mkinvocation {
  idle : lapse;
  oversleep : Q;
  sleep_counted : Q;
  running : lapse;
  outcome : result unit
}.

Definition well_timed (i : invocation) : Prop :=
  admissible (idle i) /\ admissible (running i) /\
  0 <= oversleep i /\ 0 <= sleep_counted i.

(** [time.sleep(wait)] *)
Definition sleep (wait : Q) (i : invocation) (s : state) : state :=
  pass (mklapse (wait + oversleep i) (sleep_counted i)) s.

(** One call of the inner function [rate_limited] that [decorate]
    returns, for [min_interval = 1.0 / float(max_per_second)]. *)
Definition rate_limited (max_per_second : Q) (i : invocation) (s : state)
  : result unit * state :=
  let min_interval := 1 / max_per_second in
  let s := pass (idle i) s in
  let elapsed := clock s - last_time_called s in
  let wait := min_interval - elapsed in
  let s := if Qlt_le_dec 0 wait then sleep wait i s else s in
  let began := wall s in
  let s := pass (running i) s in
  let s := mkstate (wall s) (clock s) (last_time_called s)
                   (calls s ++ [(began, wall s)]) in
  match outcome i with
  | Ok ret =>
      (Ok ret, mkstate (wall s) (clock s) (clock s) (calls s))
  | Raise e => (Raise e, s)
  end.

(** [@rate_limited(0.5)] on [todoist_add]. *)
Definition todoist_add (i : invocation) (s : state) : result unit * state :=
  rate_limited (1 # 2) i s.

(** Successive invocations in one process. An exception of the decorated
    function is not caught anywhere in [index.py]: it ends the process. *)
Fixpoint run (invocations : list invocation) (s : state)
  : result unit * state :=
  match invocations with
  | [] => (Ok tt, s)
  | i :: rest =>
      match todoist_add i s with
      | (Ok _, s') => run rest s'
      | (Raise e, s') => (Raise e, s')
      end
  end.

(** A process starts with [last_time_called = 0.0] and no call made. *)
Definition boot (wall0 clock0 : Q) : state := mkstate wall0 clock0 0 [].

(** Each call begins at least [gap] seconds after the one before it
    ended. *)
Fixpoint spaced (gap : Q) (log : list (Q * Q)) : Prop :=
  match log with
  | [] => True
  | (_, ended) :: rest =>
      match rest with
      | [] => True
      | (began, _) :: _ => ended + gap <= began /\ spaced gap rest
      end
  end.

(** The last entry of the log. *)
Fixpoint final (log : list (Q * Q)) : option (Q * Q) :=
  match log with
  | [] => None
  | entry :: rest =>
      match final rest with
      | Some last => Some last
      | None => Some entry
      end
  end.

(** Since the last call ended, real time has advanced at least as much as
    [time.clock()] has since [last_time_called]. *)
Definition settled (s : state) : Prop :=
  forall began ended,
    final (calls s) = Some (began, ended) ->
    ended + (clock s - last_time_called s) <= wall s.

(** The invocations that a run reaches: all of them up to and including
    the first whose function raises. *)
Fixpoint started (invocations : list invocation) : nat :=
  match invocations with
  | [] => 0
  | i :: rest =>
      match outcome i with
      | Ok _ => S (started rest)
      | Raise _ => 1
      end
  end.

(** Two invocations one right after the other, on a platform where
    [time.clock()] counts processor time: the function runs for half a
    second of which 10 ms are counted, and sleeping is not counted. *)
Definition back_to_back : list invocation :=
  [ mkinvocation (mklapse 0 0) (1 # 1000) 0 (mklapse (1 # 2) (1 # 100)) (Ok tt);
    mkinvocation (mklapse 0 0) (1 # 1000) 0 (mklapse (1 # 2) (1 # 100)) (Ok tt) ].

End RateLimit.

(** ** Notions the statements use *)

(** The value of a document under a path of keys. *)
Fixpoint get_path (v : value) (path : list string) : option value :=
  match path with
  | [] => Some v
  | key :: rest =>
      match v with
      | VDict items =>
          match lookup items key with
          | Some w => get_path w rest
          | None => None
          end
      | _ => None
      end
  end.

(** A path is absent from a document when following it leaves the
    document at a mapping that lacks the next key. (A path that runs into a
    value that is not a mapping lies under that value.) *)
Fixpoint absent (v : value) (path : list string) : bool :=
  match path with
  | [] => false
  | key :: rest =>
      match v with
      | VDict items =>
          match lookup items key with
          | Some w => absent w rest
          | None => true
          end
      | _ => false
      end
  end.

Definition has_key (items : list (string * value)) (key : string) : bool :=
  match lookup items key with Some _ => true | None => false end.

(** The items of a Python mapping have distinct keys, at every depth. *)
Fixpoint unique_keys (v : value) : bool :=
  match v with
  | VDict items =>
      (fix all (items : list (string * value)) : bool :=
         match items with
         | [] => true
         | (key, w) :: rest =>
             negb (has_key rest key) && unique_keys w && all rest
         end) items
  | VList l =>
      (fix all (l : list value) : bool :=
         match l with
         | [] => true
         | w :: rest => unique_keys w && all rest
         end) l
  | _ => true
  end.

(** [source] fits [destination]: both are mappings, and wherever [source]
    holds a mapping under a key that [destination] has too, [destination]
    holds a mapping that the source's fits. *)
Fixpoint fits (source destination : value) {struct source} : bool :=
  match source, destination with
  | VDict items, VDict ditems =>
      (fix all (items : list (string * value)) : bool :=
         match items with
         | [] => true
         | (key, v) :: rest =>
             match v with
             | VDict _ =>
                 match lookup ditems key with
                 | Some d => fits v d
                 | None => true
                 end
             | _ => true
             end && all rest
         end) items
  | _, _ => false
  end.

(** The node that [merge] merges a mapping of the source into. *)
Definition node_at (destination : value) (path : list string) : value :=
  match get_path destination path with
  | Some d => d
  | None => VDict []
  end.

Definition recognized (comp : component) : bool :=
  String.eqb (class_name comp) "Event".

(** The component is an event, not imported yet, that starts on or after
    the cutoff. *)
Definition wanted (imported : list string) (cutoff : date) (comp : component)
  : bool :=
  recognized comp &&
  match DTSTART comp, UID comp with
  | Some start, Some id =>
      negb (existsb (String.eqb id) imported) && date_ge (to_date start) cutoff
  | _, _ => false
  end.

(** The record built from the five properties of a component. *)
Definition assignment_of (comp : component) : option Assignment :=
  match UID comp, SUMMARY comp, DESCRIPTION comp, DTSTART comp, URL comp with
  | Some id, Some summary, Some description, Some start, Some link =>
      Some (mkAssignment id summary description (to_date start) link)
  | _, _, _, _, _ => None
  end.

(** Every property that the filter reads of this component is there: the
    start and the identifier of an event, and the other three of an event
    that is wanted. *)
Definition legible (imported : list string) (cutoff : date) (comp : component)
  : bool :=
  if recognized comp then
    match DTSTART comp, UID comp with
    | Some _, Some _ =>
        if wanted imported cutoff comp then
          match assignment_of comp with Some _ => true | None => false end
        else true
    | _, _ => false
    end
  else true.

Definition warnings (comps : list component) : list string :=
  map (fun c => unknown_type_warning (class_name c))
      (filter (fun c => negb (recognized c)) comps).

(** [config[section][key]] is a string. *)
Definition string_field (config : value) (section key : string) : bool :=
  match config_value config section key with
  | Ok (VStr _) => true
  | _ => false
  end.

(** The loop of [merge] over the items of the source. *)
Fixpoint merge_items (items : list (string * value)) (destination : value)
  : result value :=
  match items with
  | [] => Ok destination
  | (key, v) :: rest =>
      match v with
      | VDict _ =>
          (nd <- setdefault destination key (VDict []);;
           node <- merge v (fst nd);;
           destination <- setitem (snd nd) key node;;
           merge_items rest destination)%result
      | _ =>
          (destination <- setitem destination key v;;
           merge_items rest destination)%result
      end
  end.

(** How the items [ritems] of a merged mapping relate, key by key, to the
    items of the source and of the destination. *)
Definition keywise (items ditems ritems : list (string * value)) : Prop :=
  forall key,
    (lookup items key = None -> lookup ritems key = lookup ditems key) /\
    (forall v, lookup items key = Some v -> is_dict v = false ->
               lookup ritems key = Some v) /\
    (forall o, lookup items key = Some (VDict o) ->
               exists m, lookup ritems key = Some m /\
                         merge (VDict o)
                               (match lookup ditems key with
                                | Some d => d
                                | None => VDict []
                                end) = Ok m).

(** The path names no ledger that can be read: there is no file, or there
    is one that opens and whose text [json.load] rejects. *)
Definition no_ledger (e : env) (n : node) : bool :=
  match n with
  | File openable text =>
      openable && match json_load e text with
                  | Raise _ => true
                  | Ok _ => false
                  end
  | _ => true
  end.

(** The state [w] after the lines [lines] were printed. *)
Definition printed (w : world) (lines : list string) : world :=
  mkworld (files w) (stdout w ++ lines) (network w) (already_imported w).

(** [m] does not change the part [field] of the state; with [files] for
    [field], it does not write to the disk. *)
Definition keeps {A X} (field : world -> X) (m : M A) : Prop :=
  forall w, field (snd (m w)) = field w.

(** The content of the task of an assignment: a Markdown link. *)
Definition task_content (a : Assignment) : string :=
  "[" ++ title a ++ "](" ++ url a ++ ")".

(** The two requests that push one assignment as the task [t]. *)
Definition push_requests (project : Z) (at_ : Assignment * task)
  : list request :=
  [AddTask project (task_content (fst at_)); Update (snd at_)].


(** ** A sample outside world, for running the model on examples *)

Definition quote : string := String (ascii_of_nat 34) "".

(** Serializes a list of strings the way [json.dump] does when no
    character needs an escape; [null] for anything else. *)
Definition sample_dump (v : value) : string :=
  match v with
  | VList l =>
      "[" ++ String.concat ", " (map (fun x => match x with
                                        | VStr s => quote ++ s ++ quote
                                        | _ => "null"
                                        end) l) ++ "]"
  | _ => "null"
  end.

(** Parses the empty array and [null], and rejects every other text. *)
Definition sample_load (text : string) : result value :=
  if String.eqb text "[]" then Ok (VList [])
  else if String.eqb text "null" then Ok VNone
  else Raise ValueError.

Definition sample_expanduser (path : string) : string :=
  match path with
  | String "~" rest => "/home/user" ++ rest
  | _ => path
  end.

(** An outside world where it is 2016-01-31, [config.yml] holds [doc], the
    feed holds [feed], Todoist knows no project and no label, and every
    remote call succeeds except the creation of the task whose content is
    [failing]. *)
Definition sample_env (doc : result value) (feed : list component)
    (failing : string) : env :=
  mkenv (mkdate 2016 1 31) doc sample_expanduser sample_load sample_dump
        (fun _ _ => Ok tt)
        (fun _ _ => Ok feed)
        (fun _ _ => Ok None)
        (fun _ _ => Ok 1)
        (fun _ _ => Ok None)
        (fun h _ => Ok (Z.of_nat (length h)))
        (fun h _ content =>
           if String.eqb content failing then Raise (External "HTTPError")
           else Ok (mktask (Z.of_nat (length h)) "" "" []))
        (fun _ _ => Ok tt).

Definition empty_disk : string -> node := fun _ => NoEntry.

(** A loaded document that overrides two leaves, replaces the sequence of
    labels and adds a key. *)
Definition sample_config : value :=
  VDict
    [ ("todoist",
       VDict [ ("apiToken", VStr "0123abcd");
               ("labels", VList [VStr "School"; VStr "Imported"]) ]);
      ("schoology", VDict [("calendar", VStr "webcal://school.example.org/feed")]);
      ("verbose", VBool true) ].

(** A feed for 2016-01-31, when the cutoff is 2015-12-01: an event that
    starts on the cutoff (with a time of day), an event of the day before,
    a to-do, and an event that was imported before and has no summary. *)
Definition event_a : component :=
  mkcomponent "Event" (Some (Datetime (mkdate 2015 12 1) 8 30 0)) (Some "u1")
              (Some "Essay") (Some "Write it") (Some "http://s.example/1").

Definition event_b : component :=
  mkcomponent "Event" (Some (Date (mkdate 2015 11 30))) (Some "u2")
              (Some "Quiz") (Some "Chapter 3") (Some "http://s.example/2").

Definition todo_c : component :=
  mkcomponent "Todo" None (Some "u3") (Some "Pack") None None.

Definition event_d : component :=
  mkcomponent "Event" (Some (Date (mkdate 2016 1 15))) (Some "u0")
              None None None.

Definition sample_feed : list component := [event_a; event_b; todo_c; event_d].

Definition garbled_disk : string -> node :=
  fun p => if String.eqb p "/home/user/.todology/imported.json"
           then File true "[u1, "
           else NoEntry.

Definition event_lab : component :=
  mkcomponent "Event" (Some (Date (mkdate 2016 1 20))) (Some "u9")
              (Some "Lab") (Some "Bring goggles") (Some "http://s.example/9").

(** An outside world in which the feed holds [event_a] and [event_lab] and
    Todoist refuses to create the task of [event_lab]. *)
Definition lab_fails : env :=
  sample_env (Ok sample_config) [event_a; event_lab]
             "[Lab](http://s.example/9)".

Definition essay : Assignment :=
  mkAssignment "u1" "Essay" "Write it" (mkdate 2015 12 1) "http://s.example/1".

Definition lab : Assignment :=
  mkAssignment "u9" "Lab" "Bring goggles" (mkdate 2016 1 20)
               "http://s.example/9".

(** The states that the run in [lab_fails] goes through from an empty
    disk: after the configuration ([main_config] leaves the state alone),
    after the filter, after the project and labels are resolved, after the
    push of [essay], after the failed push of [lab]. *)
Definition lab_config : value * string :=
  Eval vm_compute in
    match fst (main_config lab_fails (start empty_disk)) with
    | Ok cp => cp
    | Raise _ => (VNone, "")
    end.

Definition lab_filtered : world :=
  Eval vm_compute in
    snd (main_fetch lab_fails (fst lab_config) (snd lab_config)
                    (start empty_disk)).

Definition lab_resolved : world :=
  Eval vm_compute in
    snd (resolve lab_fails (VStr "Inbox")
                 (VList [VStr "School"; VStr "Imported"]) lab_filtered).

Definition lab_pushed : world :=
  Eval vm_compute in
    snd (for_each [essay] (push lab_fails 1 [4; 6]) lab_resolved).

Definition lab_failed : world :=
  Eval vm_compute in snd (push lab_fails 1 [4; 6] lab lab_pushed).

(** A configuration whose credential and feed address are empty strings. *)
Definition empty_strings_config : value :=
  VDict [ ("todoist", VDict [("apiToken", VStr "")]);
          ("schoology", VDict [("calendar", VStr "")]) ].

(** A run that finds the ledger [["u0"]] and the feed [sample_feed]: the
    state when it starts, after the filter (which warns about [todo_c] and
    returns [essay]), and after the push of [essay]. *)
Definition calm : env := sample_env (Ok sample_config) sample_feed "".

Definition with_u0 : world := mkworld empty_disk [] [] (ledger_of ["u0"]).

Definition with_u0_filtered : world :=
  Eval vm_compute in snd (get_assignments calm sample_feed with_u0).

Definition with_u0_pushed : world :=
  Eval vm_compute in
    snd (todoist_add calm (VStr "Inbox") (VList [VStr "Todology"]) [essay]
                     with_u0_filtered).

(** An outside world in which Todoist answers every login with a
    [KeyError]. *)
Definition stubborn : env :=
  mkenv (mkdate 2016 1 31) (Ok sample_config) sample_expanduser sample_load
        sample_dump
        (fun _ _ => Raise KeyError)
        (fun _ _ => Ok [])
        (fun _ _ => Ok None)
        (fun _ _ => Ok 1)
        (fun _ _ => Ok None)
        (fun _ _ => Ok 2)
        (fun _ _ _ => Ok (mktask 3 "" "" []))
        (fun _ _ => Ok tt).



(** A run over a feed of two complete events, from an empty disk to its
    end. *)
Definition two_events : env :=
  sample_env (Ok sample_config) [event_a; event_b] "".

Definition two_events_done : world :=
  Eval vm_compute in snd (main two_events (start empty_disk)).

(** [sample_config] merged into the defaults. *)
Definition sample_merged : value :=
  Eval vm_compute in
    match merge sample_config DEFAULT_CONFIG with
    | Ok r => r
    | Raise _ => VNone
    end.

(** A state whose ledger is a JSON object, as [load_imported_uids] hands
    it to [main] when the ledger file holds [{}]. *)
Definition with_object : world := mkworld empty_disk [] [] (VDict []).

Definition with_object_pushed : world :=
  Eval vm_compute in
    snd (for_each [essay; lab] (push calm 1 [4; 6]) with_object).


(** The labels given as the plain string [Todology]: the ids that
    [resolve] returns, and the state afterwards. *)
Definition string_labels : (Z * list Z) * world :=
  Eval vm_compute in
    match resolve calm (VStr "Inbox") (VStr "Todology") with_u0 with
    | (Ok pl, w') => (pl, w')
    | (Raise _, w') => ((0, []), w')
    end.

(** * Properties *)

(** ** The cutoff *)

Lemma date_new_first (y m : Z) :
  1 <= y <= 9999 -> 1 <= m <= 12 -> date_new y m 1 = Ok (mkdate y m 1).
Proof.
  intros Hy Hm. unfold date_new, valid_date, days_in_month. simpl.
  replace (1 <=? y) with true by (symmetry; apply Z.leb_le; lia).
  replace (y <=? 9999) with true by (symmetry; apply Z.leb_le; lia).
  replace (1 <=? m) with true by (symmetry; apply Z.leb_le; lia).
  replace (m <=? 12) with true by (symmetry; apply Z.leb_le; lia).
  simpl.
  destruct (m =? 2); [destruct (is_leap y); reflexivity|].
  destruct ((m =? 4) || (m =? 6) || (m =? 9) || (m =? 11)); reflexivity.
Qed.

Lemma valid_date_bounds (d : date) :
  valid_date d = true ->
  1 <= year d <= 9999 /\ 1 <= month d <= 12 /\ 1 <= day d.
Proof.
  unfold valid_date. intros H.
  repeat (apply andb_prop in H; destruct H as [H ?]).
  repeat match goal with
         | H : (_ <=? _) = true |- _ => apply Z.leb_le in H
         end.
  lia.
Qed.

(** C3. For every current date [today], [start_of_last_month] returns the
    first day of the month before today's: [date(today.year,
    today.month - 1, 1)] from February on, and [date(today.year - 1, 12, 1)]
    in January. The third part is the same fact in terms of the [date]
    constructor itself, which covers January of year 1, where
    [date(0, 12, 1)] is not a date. For 2016-01-31 the cutoff is
    2015-12-01, for 2016-03-15 it is 2016-02-01. *)
Theorem start_of_last_month_first_of_previous (today : date) :
  valid_date today = true ->
  (2 <= month today ->
   start_of_last_month today
   = Ok (mkdate (year today) (month today - 1) 1)) /\
  (month today < 2 -> 2 <= year today ->
   start_of_last_month today = Ok (mkdate (year today - 1) 12 1)) /\
  start_of_last_month today
  = (if 2 <=? month today
     then date_new (year today) (month today - 1) 1
     else date_new (year today - 1) 12 1) /\
  start_of_last_month (mkdate 2016 1 31) = Ok (mkdate 2015 12 1) /\
  start_of_last_month (mkdate 2016 3 15) = Ok (mkdate 2016 2 1).
Proof.
  intros Hvalid. apply valid_date_bounds in Hvalid.
  destruct Hvalid as (Hy & Hm & _).
  unfold start_of_last_month.
  repeat split.
  - intros H. apply Z.leb_le in H as Hb. rewrite Hb.
    apply date_new_first; lia.
  - intros H1 H2.
    replace (2 <=? month today) with false by (symmetry; apply Z.leb_gt; lia).
    apply date_new_first; lia.
  - destruct (2 <=? month today); reflexivity.
Qed.

Lemma start_of_last_month_witness :
  valid_date (mkdate 2016 1 31) = true /\
  start_of_last_month (mkdate 2016 1 31) = Ok (mkdate 2015 12 1).
Proof.
  split; [reflexivity|].
  exact (proj1 (proj2 (proj2 (proj2
    (start_of_last_month_first_of_previous (mkdate 2016 1 31) eq_refl))))).
Defined.

(** X15. The cutoff lies before today. *)
Lemma start_of_last_month_before (today cutoff : date) :
  valid_date today = true ->
  start_of_last_month today = Ok cutoff ->
  date_lt cutoff today = true.
Proof.
  intros Hvalid. apply valid_date_bounds in Hvalid as (Hy & Hm & Hd).
  unfold start_of_last_month, date_new.
  destruct (valid_date _); [|discriminate].
  intros H. injection H as <-.
  unfold date_lt, date_compare. simpl.
  destruct (Z.leb_spec 2 (month today)).
  - rewrite Z.compare_refl.
    replace (month today - 1 ?= month today) with Lt; [reflexivity|].
    symmetry. apply Z.compare_lt_iff. lia.
  - replace (year today - 1 ?= year today) with Lt; [reflexivity|].
    symmetry. apply Z.compare_lt_iff. lia.
Qed.

(** ** The feed address *)

(** C9. The address [webcal://app.schoology.com/calendar/feed] is fetched
    as [https://pp.schoology.com/calendar/feed]: [lstrip] goes on past the
    scheme and takes the [a] of the host. An address without a scheme
    loses its leading characters out of [webcal:/] as well. *)
Theorem feed_url_strips_host :
  feed_url "webcal://app.schoology.com/calendar/feed"
  = "https://pp.schoology.com/calendar/feed" /\
  feed_url "calendar.example.com/feed" = "https://ndar.example.com/feed".
Proof. split; reflexivity. Qed.

Lemma lstrip_stops (chars : string) (c : ascii) (rest : string) :
  existsb (Ascii.eqb c) (list_ascii_of_string chars) = false ->
  lstrip chars (String c rest) = String c rest.
Proof. intros H. simpl. rewrite H. reflexivity. Qed.

(** X16. The URL is the intended one when the address after the scheme begins
    with a character outside [webcal:/]. *)
Lemma feed_url_when_host_stops (c : ascii) (rest : string) :
  existsb (Ascii.eqb c) (list_ascii_of_string "webcal://") = false ->
  feed_url ("webcal://" ++ String c rest) = "https://" ++ String c rest /\
  feed_url (String c rest) = "https://" ++ String c rest.
Proof.
  intros H. unfold feed_url. split.
  - change (lstrip "webcal://" ("webcal://" ++ String c rest))
      with (lstrip "webcal://" (String c rest)).
    rewrite (lstrip_stops _ _ _ H). reflexivity.
  - rewrite (lstrip_stops _ _ _ H). reflexivity.
Qed.

(** ** Running the monad *)

Lemma bind_ok {A B} (m : M A) (k : A -> M B) (w w' : world) (a : A) :
  m w = (Ok a, w') -> bind m k w = k a w'.
Proof. intros H. unfold bind. rewrite H. reflexivity. Qed.

Lemma bind_raise {A B} (m : M A) (k : A -> M B) (w w' : world) (e : exn) :
  m w = (Raise e, w') -> bind m k w = (Raise e, w').
Proof. intros H. unfold bind. rewrite H. reflexivity. Qed.

(** ** Mappings *)

Lemma lookup_store_same (items : list (string * value)) (key : string)
    (v : value) :
  lookup (store items key v) key = Some v.
Proof.
  induction items as [|[k w] rest IH]; simpl.
  - rewrite String.eqb_refl. reflexivity.
  - destruct (String.eqb k key) eqn:E; simpl; rewrite E; auto.
Qed.

Lemma lookup_store_other (items : list (string * value)) (key key' : string)
    (v : value) :
  key <> key' ->
  lookup (store items key v) key' = lookup items key'.
Proof.
  intros Hne. induction items as [|[k w] rest IH]; simpl.
  - destruct (String.eqb_spec key key'); [contradiction|reflexivity].
  - destruct (String.eqb_spec k key) as [->|Hk]; simpl.
    + destruct (String.eqb_spec key key'); [contradiction|reflexivity].
    + rewrite IH. reflexivity.
Qed.

Lemma merge_dict (items : list (string * value)) (destination : value) :
  merge (VDict items) destination = merge_items items destination.
Proof.
  revert destination.
  induction items as [|[key v] rest IH]; intros destination; [reflexivity|].
  destruct v as [| | | | |sub].
  1-5: match goal with
       | |- merge (VDict ((?k, ?v) :: ?r)) ?d = _ =>
           change (merge (VDict ((k, v) :: r)) d)
             with (rbind (setitem d k v) (fun d' => merge (VDict r) d'))
       end;
       cbn [merge_items]; unfold rbind;
       destruct (setitem destination key _); [apply IH|reflexivity].
  change (merge (VDict ((key, VDict sub) :: rest)) destination)
    with (rbind (setdefault destination key (VDict []))
            (fun nd => rbind (merge (VDict sub) (fst nd))
               (fun node => rbind (setitem (snd nd) key node)
                  (fun d' => merge (VDict rest) d')))).
  cbn [merge_items]. unfold rbind.
  destruct (setdefault destination key (VDict [])) as [nd|]; [|reflexivity].
  destruct (merge (VDict sub) (fst nd)) as [node|]; [|reflexivity].
  destruct (setitem (snd nd) key node); [apply IH|reflexivity].
Qed.

(** [merge] hands back its destination: a mapping stays a mapping. *)
Lemma merge_items_is_dict (items : list (string * value)) :
  forall destination r,
    is_dict destination = true ->
    merge_items items destination = Ok r -> is_dict r = true.
Proof.
  induction items as [|[key v] rest IH]; intros destination r Hd H.
  - simpl in H. injection H as <-. exact Hd.
  - destruct destination as [| | | | |ditems]; try discriminate.
    cbn [merge_items] in H. unfold rbind, setitem, setdefault in H.
    destruct v as [| | | | |sub];
      try (eapply IH; [|exact H]; reflexivity).
    destruct (lookup ditems key) as [d|]; cbn [fst snd] in H.
    + destruct (merge (VDict sub) d); [|discriminate].
      eapply IH; [|exact H]; reflexivity.
    + destruct (merge (VDict sub) (VDict [])); [|discriminate].
      eapply IH; [|exact H]; reflexivity.
Qed.

Lemma merge_is_dict (source destination r : value) :
  is_dict destination = true ->
  merge source destination = Ok r -> is_dict r = true.
Proof.
  destruct source; try discriminate.
  rewrite merge_dict. apply merge_items_is_dict.
Qed.

(** ** A configuration that is not a mapping *)

(** [merge] reads [source.items()] before [main] asks whether the result
    is a mapping: a document that is not a mapping ends the run with
    [AttributeError], and nothing is printed. *)
Lemma main_not_a_mapping (e : env) (w : world) (doc : value) :
  config_yml e = Ok doc ->
  is_dict doc = false ->
  main e w = (Raise AttributeError, w).
Proof.
  intros Hdoc Hnot. unfold main, main_config, bind, lift.
  rewrite Hdoc. destruct doc; try discriminate; reflexivity.
Qed.

(** The branch that warns and falls back to the defaults is never taken:
    whenever [main] gets past [merge], the merged document is a mapping. *)
Lemma merge_default_is_dict (doc config : value) :
  merge doc DEFAULT_CONFIG = Ok config -> is_dict config = true.
Proof. apply merge_is_dict. reflexivity. Qed.

(** C7. With [config.yml] holding the sequence [- a], a document that is
    not a mapping, the run ends with [AttributeError]: it does not fall
    back to the defaults, and it prints no warning. *)
Theorem main_sequence_config_raises :
  main (sample_env (Ok (VList [VStr "a"])) [] "") (start empty_disk)
  = (Raise AttributeError, start empty_disk).
Proof.
  apply (main_not_a_mapping _ _ (VList [VStr "a"])); reflexivity.
Qed.

(** ** [merge] on documents that fit *)

(** Induction on documents through the values of their mappings. *)
Lemma value_dict_ind (P : value -> Prop) :
  (forall v, is_dict v = false -> P v) ->
  (forall items, (forall k v, In (k, v) items -> P v) -> P (VDict items)) ->
  forall v, P v.
Proof.
  intros Hleaf Hdict. fix IH 1.
  intros [| | | | |items]; try (apply Hleaf; reflexivity).
  apply Hdict.
  induction items as [|[k0 v0] rest IHrest]; intros k v Hin.
  - destruct Hin.
  - destruct Hin as [E|Hin].
    + injection E as _ <-. apply IH.
    + exact (IHrest k v Hin).
Qed.

Lemma unique_keys_cons (k : string) (v : value) (rest : list (string * value)) :
  unique_keys (VDict ((k, v) :: rest))
  = negb (has_key rest k) && unique_keys v && unique_keys (VDict rest).
Proof. reflexivity. Qed.

Lemma fits_cons (k : string) (v : value) (rest ditems : list (string * value)) :
  fits (VDict ((k, v) :: rest)) (VDict ditems)
  = match v with
    | VDict _ => match lookup ditems k with
                 | Some d => fits v d
                 | None => true
                 end
    | _ => true
    end && fits (VDict rest) (VDict ditems).
Proof. reflexivity. Qed.

Lemma fits_is_dict (source destination : value) :
  fits source destination = true ->
  exists items ditems, source = VDict items /\ destination = VDict ditems.
Proof.
  destruct source as [| | | | |items]; try discriminate.
  destruct destination as [| | | | |ditems]; try discriminate.
  intros _. exists items, ditems. split; reflexivity.
Qed.

Lemma fits_empty (items : list (string * value)) :
  fits (VDict items) (VDict []) = true.
Proof.
  induction items as [|[k v] rest IH]; [reflexivity|].
  rewrite fits_cons, IH. destruct v; reflexivity.
Qed.

Lemma has_key_cons_false (k k' : string) (v : value)
    (rest : list (string * value)) :
  has_key ((k', v) :: rest) k = false -> k' <> k /\ has_key rest k = false.
Proof.
  unfold has_key. simpl.
  destruct (String.eqb_spec k' k); [discriminate|]. auto.
Qed.

Lemma has_key_false (items : list (string * value)) (k : string) :
  has_key items k = false -> lookup items k = None.
Proof. unfold has_key. destruct (lookup items k); [discriminate|auto]. Qed.

(** Fitting looks at the destination only under the keys of the source. *)
Lemma fits_same_lookups (k : string) (rest ditems ditems' : list (string * value)) :
  has_key rest k = false ->
  (forall key, k <> key -> lookup ditems' key = lookup ditems key) ->
  fits (VDict rest) (VDict ditems') = fits (VDict rest) (VDict ditems).
Proof.
  intros Hk Hsame. induction rest as [|[k' v'] rest IH]; [reflexivity|].
  apply has_key_cons_false in Hk as [Hne Hk].
  rewrite !fits_cons, (IH Hk), (Hsame k') by congruence. reflexivity.
Qed.

Lemma lookup_In (items : list (string * value)) (k : string) (v : value) :
  lookup items k = Some v -> In (k, v) items.
Proof.
  induction items as [|[k' v'] rest IH]; simpl; [discriminate|].
  destruct (String.eqb_spec k' k) as [->|].
  - intros H. injection H as ->. left. reflexivity.
  - intros H. right. exact (IH H).
Qed.

Lemma unique_keys_lookup (items : list (string * value)) (k : string)
    (v : value) :
  unique_keys (VDict items) = true ->
  lookup items k = Some v -> unique_keys v = true.
Proof.
  induction items as [|[k' v'] rest IH]; simpl lookup; [discriminate|].
  rewrite unique_keys_cons. intros Hu.
  apply andb_prop in Hu as [Hu Hrest]. apply andb_prop in Hu as [_ Hv].
  destruct (String.eqb k' k).
  - intros H. injection H as <-. exact Hv.
  - exact (IH Hrest).
Qed.

Lemma fits_lookup (items ditems o : list (string * value)) (k : string) :
  fits (VDict items) (VDict ditems) = true ->
  lookup items k = Some (VDict o) ->
  fits (VDict o) (match lookup ditems k with
                  | Some d => d
                  | None => VDict []
                  end) = true.
Proof.
  induction items as [|[k' v'] rest IH]; simpl lookup; [discriminate|].
  rewrite fits_cons. intros Hf. apply andb_prop in Hf as [Hhead Hrest].
  destruct (String.eqb_spec k' k) as [->|].
  - intros H. injection H as ->.
    destruct (lookup ditems k); [exact Hhead|apply fits_empty].
  - exact (IH Hrest).
Qed.

Lemma keywise_step (k : string) (v x : value)
    (rest ditems ditems' ritems : list (string * value)) :
  has_key rest k = false ->
  lookup ditems' k = Some x ->
  (forall key, k <> key -> lookup ditems' key = lookup ditems key) ->
  (is_dict v = false -> x = v) ->
  (forall o, v = VDict o ->
             merge (VDict o) (match lookup ditems k with
                              | Some d => d
                              | None => VDict []
                              end) = Ok x) ->
  keywise rest ditems' ritems ->
  keywise ((k, v) :: rest) ditems ritems.
Proof.
  intros Hk Hx Hsame Hleaf Hnode Hrest key.
  destruct (Hrest key) as (R1 & R2 & R3).
  simpl lookup. destruct (String.eqb_spec k key) as [<-|Hne].
  - apply has_key_false in Hk. specialize (R1 Hk). rewrite Hx in R1.
    repeat split.
    + discriminate.
    + intros v0 E Hv0. injection E as <-. rewrite R1, (Hleaf Hv0). reflexivity.
    + intros o E. injection E as ->. exists x. split; [exact R1|].
      apply Hnode. reflexivity.
  - rewrite <- (Hsame key Hne). repeat split; assumption.
Qed.

Lemma merge_items_keywise (items : list (string * value)) :
  (forall k v, In (k, v) items ->
     forall d, unique_keys v = true -> fits v d = true ->
               exists m, merge v d = Ok m) ->
  forall ditems,
    unique_keys (VDict items) = true ->
    fits (VDict items) (VDict ditems) = true ->
    exists ritems,
      merge_items items (VDict ditems) = Ok (VDict ritems) /\
      keywise items ditems ritems.
Proof.
  induction items as [|[k v] rest IH]; intros Hsub ditems Hu Hf.
  - exists ditems. split; [reflexivity|].
    intros key. repeat split; simpl; discriminate.
  - rewrite unique_keys_cons in Hu.
    apply andb_prop in Hu as [Hu Hurest]. apply andb_prop in Hu as [Hk Hv].
    apply negb_true_iff in Hk.
    rewrite fits_cons in Hf. apply andb_prop in Hf as [Hhead Hfrest].
    assert (Hsub' : forall k0 v0, In (k0, v0) rest ->
              forall d, unique_keys v0 = true -> fits v0 d = true ->
                        exists m, merge v0 d = Ok m).
    { intros k0 v0 Hin. apply (Hsub k0 v0). right. exact Hin. }
    assert (Hstep : forall x ditems',
              lookup ditems' k = Some x ->
              (forall key, k <> key -> lookup ditems' key = lookup ditems key) ->
              (is_dict v = false -> x = v) ->
              (forall o, v = VDict o ->
                 merge (VDict o) (match lookup ditems k with
                                  | Some d => d
                                  | None => VDict []
                                  end) = Ok x) ->
              exists ritems,
                merge_items rest (VDict ditems') = Ok (VDict ritems) /\
                keywise ((k, v) :: rest) ditems ritems).
    { intros x ditems' Hx Hsame Hleaf Hnode.
      destruct (IH Hsub' ditems' Hurest) as (ritems & Hm & Hkw).
      - rewrite (fits_same_lookups k rest ditems ditems' Hk Hsame).
        exact Hfrest.
      - exists ritems. split; [exact Hm|].
        eapply keywise_step; eauto. }
    cbn [merge_items]. unfold rbind, setitem, setdefault.
    destruct v as [| | | | |sub].
    1-5: eapply Hstep;
      [ apply lookup_store_same
      | intros key Hne; apply lookup_store_other; exact Hne
      | reflexivity
      | discriminate ].
    destruct (lookup ditems k) as [d|] eqn:Hd; cbn [fst snd].
    + destruct (Hsub k (VDict sub) (or_introl eq_refl) d Hv Hhead) as (m & Hm).
      rewrite Hm. eapply Hstep.
      * apply lookup_store_same.
      * intros key Hne. apply lookup_store_other. exact Hne.
      * discriminate.
      * intros o E. injection E as <-. exact Hm.
    + destruct (Hsub k (VDict sub) (or_introl eq_refl) (VDict []) Hv
                     (fits_empty sub)) as (m & Hm).
      rewrite Hm. eapply Hstep.
      * apply lookup_store_same.
      * intros key Hne. rewrite !lookup_store_other by exact Hne. reflexivity.
      * discriminate.
      * intros o E. injection E as <-. exact Hm.
Qed.

Lemma get_path_cons (items : list (string * value)) (key : string)
    (path : list string) :
  get_path (VDict items) (key :: path)
  = match lookup items key with
    | Some w => get_path w path
    | None => None
    end.
Proof. reflexivity. Qed.

Lemma get_path_leaf (v : value) (key : string) (path : list string) :
  is_dict v = false -> get_path v (key :: path) = None.
Proof. destruct v; try discriminate; reflexivity. Qed.

Lemma node_at_cons (ditems : list (string * value)) (key k' : string)
    (path : list string) :
  node_at (VDict ditems) (key :: k' :: path)
  = node_at (match lookup ditems key with
             | Some d => d
             | None => VDict []
             end) (k' :: path).
Proof.
  unfold node_at. rewrite get_path_cons.
  destruct (lookup ditems key); reflexivity.
Qed.

Lemma node_at_single (ditems : list (string * value)) (key : string) :
  node_at (VDict ditems) [key]
  = match lookup ditems key with
    | Some d => d
    | None => VDict []
    end.
Proof.
  unfold node_at. rewrite get_path_cons.
  destruct (lookup ditems key); reflexivity.
Qed.

(** C4, amended. Let the loaded document [O] and the default document [D]
    be mappings with distinct keys such that [O] fits [D]: wherever [O]
    holds a mapping under a key path that [D] has too, [D] holds a mapping.
    Then [merge(O, D)] returns a mapping [R] in which
    - every key path at which [O] holds a value that is not a mapping
      (a sequence included) carries that value;
    - every key path at which [O] holds a mapping carries the merge of
      that mapping into what [D] holds there (into [{}] if [D] holds
      nothing);
    - every key path absent from [O] carries what [D] has there, if
      anything. *)
Theorem merge_overrides_and_keeps (O : value) :
  forall D,
    unique_keys O = true ->
    fits O D = true ->
    exists R,
      merge O D = Ok R /\ is_dict R = true /\
      (forall path v, get_path O path = Some v -> is_dict v = false ->
                      get_path R path = Some v) /\
      (forall path o, path <> [] -> get_path O path = Some (VDict o) ->
                      exists m, get_path R path = Some m /\
                                merge (VDict o) (node_at D path) = Ok m) /\
      (forall path, absent O path = true -> get_path R path = get_path D path).
Proof.
  induction O as [O Hleaf|items IH] using value_dict_ind; intros D Hu Hf.
  { apply fits_is_dict in Hf as (? & ? & -> & _). discriminate. }
  destruct (fits_is_dict _ _ Hf) as (? & ditems & E & ->).
  injection E as <-.
  destruct (merge_items_keywise items) with (ditems := ditems)
    as (ritems & Hm & Hkw); try assumption.
  { intros k v Hin d Huv Hfv.
    destruct (IH k v Hin d Huv Hfv) as (m & Hmv & _). exists m. exact Hmv. }
  exists (VDict ritems). rewrite merge_dict.
  split; [exact Hm|]. split; [reflexivity|].
  (* What the induction hypothesis says below a key of [O]. *)
  assert (Hbelow : forall key o m,
            lookup items key = Some (VDict o) ->
            merge (VDict o) (node_at (VDict ditems) [key]) = Ok m ->
            (forall path v, get_path (VDict o) path = Some v ->
                            is_dict v = false -> get_path m path = Some v) /\
            (forall path o', path <> [] ->
                             get_path (VDict o) path = Some (VDict o') ->
               exists m', get_path m path = Some m' /\
                          merge (VDict o')
                                (node_at (node_at (VDict ditems) [key]) path)
                          = Ok m') /\
            (forall path, absent (VDict o) path = true ->
               get_path m path = get_path (node_at (VDict ditems) [key]) path)).
  { intros key o m Hlk Hmo.
    destruct (IH key (VDict o) (lookup_In _ _ _ Hlk)
                 (node_at (VDict ditems) [key]))
      as (m' & Hm' & _ & Ha & Hb & Hc).
    - exact (unique_keys_lookup _ _ _ Hu Hlk).
    - rewrite node_at_single. exact (fits_lookup _ _ _ _ Hf Hlk).
    - rewrite Hmo in Hm'. injection Hm' as <-. auto. }
  split; [|split].
  - intros [|key path] v Hget Hv;
      [simpl in Hget; injection Hget as <-; discriminate|].
    rewrite get_path_cons in *.
    destruct (lookup items key) as [w|] eqn:Hlk; [|discriminate].
    destruct (Hkw key) as (_ & K2 & K3).
    destruct w as [| | | | |o].
    1-5: destruct path; [|discriminate];
      simpl in Hget; injection Hget as <-;
      rewrite (K2 _ Hlk eq_refl); reflexivity.
    destruct (K3 o Hlk) as (m & Hrk & Hmo). rewrite Hrk.
    rewrite <- node_at_single in Hmo.
    exact (proj1 (Hbelow key o m Hlk Hmo) path v Hget Hv).
  - intros [|key path] o' Hne Hget; [congruence|].
    rewrite get_path_cons in *.
    destruct (lookup items key) as [w|] eqn:Hlk; [|discriminate].
    destruct (Hkw key) as (_ & _ & K3).
    destruct path as [|k' path].
    + simpl in Hget. injection Hget as ->.
      destruct (K3 o' Hlk) as (m & Hrk & Hmo).
      exists m. rewrite Hrk, node_at_single. auto.
    + destruct w as [| | | | |o]; try discriminate.
      destruct (K3 o Hlk) as (m & Hrk & Hmo). rewrite Hrk.
      rewrite <- node_at_single in Hmo.
      destruct (proj1 (proj2 (Hbelow key o m Hlk Hmo)) (k' :: path) o')
        as (m' & G & Hm'); [discriminate|exact Hget|].
      exists m'. split; [exact G|].
      rewrite node_at_cons, <- node_at_single. exact Hm'.
  - intros [|key path] Habs; [discriminate|].
    rewrite !get_path_cons. simpl in Habs.
    destruct (lookup items key) as [w|] eqn:Hlk;
      destruct (Hkw key) as (K1 & _ & K3).
    + destruct path as [|k' path]; [discriminate|].
      destruct w as [| | | | |o]; try discriminate.
      destruct (K3 o Hlk) as (m & Hrk & Hmo). rewrite Hrk.
      rewrite <- node_at_single in Hmo.
      rewrite (proj2 (proj2 (Hbelow key o m Hlk Hmo)) (k' :: path) Habs).
      rewrite node_at_single.
      destruct (lookup ditems key); reflexivity.
    + rewrite (K1 Hlk). reflexivity.
Qed.

Lemma merge_overrides_and_keeps_witness :
  unique_keys sample_config = true /\
  fits sample_config DEFAULT_CONFIG = true /\
  exists R,
    merge sample_config DEFAULT_CONFIG = Ok R /\ is_dict R = true /\
    (forall path v, get_path sample_config path = Some v ->
                    is_dict v = false -> get_path R path = Some v) /\
    (forall path o, path <> [] ->
                    get_path sample_config path = Some (VDict o) ->
                    exists m, get_path R path = Some m /\
                              merge (VDict o) (node_at DEFAULT_CONFIG path)
                              = Ok m) /\
    (forall path, absent sample_config path = true ->
                  get_path R path = get_path DEFAULT_CONFIG path).
Proof.
  split; [reflexivity|]. split; [reflexivity|].
  apply (merge_overrides_and_keeps sample_config DEFAULT_CONFIG);
    reflexivity.
Defined.

(** What the merge of [sample_config] into the defaults is. *)
Example merge_sample_config :
  merge sample_config DEFAULT_CONFIG
  = Ok (VDict
          [ ("schoology",
             VDict [("calendar", VStr "webcal://school.example.org/feed")]);
            ("todoist",
             VDict [ ("apiToken", VStr "0123abcd");
                     ("project", VStr "Inbox");
                     ("labels", VList [VStr "School"; VStr "Imported"]) ]);
            ("storage", VStr "~/.todology");
            ("verbose", VBool true) ]).
Proof. reflexivity. Qed.

(** C4 as stated fails where the loaded document holds a mapping and the
    defaults hold a value that is not one. The loaded document
    [{storage: {}}] has the key path [storage], and the merged document
    carries the default string there, not the loaded [{}]; with
    [{schoology: {calendar: {a: 1}}}] the merge raises [TypeError]. *)
Lemma merge_mapping_over_scalar :
  merge (VDict [("storage", VDict [])]) DEFAULT_CONFIG = Ok DEFAULT_CONFIG /\
  get_path (VDict [("storage", VDict [])]) ["storage"] = Some (VDict []) /\
  get_path DEFAULT_CONFIG ["storage"] = Some (VStr "~/.todology") /\
  merge (VDict [("schoology", VDict [("calendar", VDict [("a", VInt 1)])])])
        DEFAULT_CONFIG
  = Raise TypeError.
Proof. repeat split. Qed.

(** ** The ledger file *)

(** C5. For a path that names no file, and for a file whose text
    [json.load] cannot parse, [load_imported_uids] returns the empty list
    and raises nothing. *)
Theorem load_imported_uids_empty (e : env) (w : world) (path : string) :
  no_ledger e (files w path) = true ->
  load_imported_uids e path w = (Ok (VList []), w).
Proof.
  unfold no_ledger, load_imported_uids.
  destruct (files w path) as [| |openable text]; try reflexivity.
  destruct openable; [|discriminate]. simpl.
  destruct (json_load e text); [discriminate|reflexivity].
Qed.

Lemma load_imported_uids_empty_witness :
  load_imported_uids (sample_env (Ok sample_config) [] "")
                     "/home/user/.todology/imported.json" (start empty_disk)
  = (Ok (VList []), start empty_disk) /\
  load_imported_uids (sample_env (Ok sample_config) [] "")
                     "/home/user/.todology/imported.json" (start garbled_disk)
  = (Ok (VList []), start garbled_disk).
Proof.
  split.
  - apply (load_imported_uids_empty _ (start empty_disk)). reflexivity.
  - apply (load_imported_uids_empty _ (start garbled_disk)). reflexivity.
Defined.

(** A file that does not open is the one fault the function lets out:
    [open] stands before the [try]. *)
Lemma load_imported_uids_not_openable (e : env) (w : world) (path text : string) :
  files w path = File false text ->
  load_imported_uids e path w = (Raise (External "PermissionError"), w).
Proof. intros H. unfold load_imported_uids. rewrite H. reflexivity. Qed.

(** ** The assignment filter *)

Lemma contains_ledger_of (imported : list string) (id : string) :
  contains (ledger_of imported) id = Ok (existsb (String.eqb id) imported).
Proof.
  unfold ledger_of, contains. f_equal.
  induction imported as [|x rest IH]; [reflexivity|].
  simpl. rewrite IH, (String.eqb_sym x id). reflexivity.
Qed.

(** One turn of the loop on an event: an assignment, a silent skip, or a
    [KeyError]; the state is not touched. *)
Lemma consider_run (e : env) (w : world) (comp : component)
    (imported : list string) (cutoff : date) :
  already_imported w = ledger_of imported ->
  start_of_last_month (today e) = Ok cutoff ->
  recognized comp = true ->
  consider e comp w
  = (if legible imported cutoff comp
     then Ok (if wanted imported cutoff comp then assignment_of comp else None)
     else Raise KeyError, w).
Proof.
  intros Hledger Hcutoff Hrec.
  unfold consider, legible, wanted, assignment_of, bind, lift, ret,
    get_already_imported, prop.
  rewrite Hrec, Hledger. cbn [andb].
  destruct (DTSTART comp) as [start|]; [|reflexivity].
  destruct (UID comp) as [id|]; [|reflexivity].
  rewrite contains_ledger_of.
  destruct (existsb (String.eqb id) imported); cbn [negb andb]; [reflexivity|].
  rewrite Hcutoff.
  destruct (date_ge (to_date start) cutoff); [|reflexivity].
  destruct (SUMMARY comp); [|reflexivity].
  destruct (DESCRIPTION comp); [|reflexivity].
  destruct (URL comp); reflexivity.
Qed.

Lemma printed_nil (w : world) : printed w [] = w.
Proof. destruct w. unfold printed. simpl. rewrite app_nil_r. reflexivity. Qed.

Lemma printed_app (w : world) (a b : list string) :
  printed (printed w a) b = printed w (a ++ b)%list.
Proof. unfold printed. simpl. rewrite app_assoc. reflexivity. Qed.

Lemma get_assignments_from_legible (e : env) (imported : list string)
    (cutoff : date) (comps : list component) :
  start_of_last_month (today e) = Ok cutoff ->
  forallb (legible imported cutoff) comps = true ->
  forall assignments w,
    already_imported w = ledger_of imported ->
    exists found,
      get_assignments_from e comps assignments w
      = (Ok (assignments ++ found)%list, printed w (warnings comps)) /\
      map Some found = map assignment_of (filter (wanted imported cutoff) comps).
Proof.
  intros Hcutoff.
  induction comps as [|comp rest IH]; intros Hleg assignments w Hledger.
  - exists []. rewrite app_nil_r. unfold warnings. simpl.
    rewrite printed_nil. split; reflexivity.
  - simpl in Hleg. apply andb_prop in Hleg as [Hcomp Hrest].
    cbn [get_assignments_from]. unfold warnings. cbn [filter].
    fold (recognized comp).
    destruct (recognized comp) eqn:Hrec; cbn [negb map].
    + erewrite bind_ok
        by (rewrite (consider_run e w comp imported cutoff Hledger Hcutoff Hrec),
              Hcomp; reflexivity).
      destruct (wanted imported cutoff comp) eqn:Hw.
      * unfold legible in Hcomp. rewrite Hrec, Hw in Hcomp.
        destruct (DTSTART comp); [|discriminate].
        destruct (UID comp); [|discriminate].
        destruct (assignment_of comp) as [a|] eqn:Ha; [|discriminate].
        destruct (IH Hrest (assignments ++ [a])%list w Hledger) as (found & Hrun & Hmap).
        exists (a :: found). rewrite <- app_assoc in Hrun.
        split; [exact Hrun|]. simpl. rewrite Ha, Hmap. reflexivity.
      * destruct (IH Hrest assignments w Hledger) as (found & Hrun & Hmap).
        exists found. split; [exact Hrun|exact Hmap].
    + assert (Hw : wanted imported cutoff comp = false)
        by (unfold wanted; rewrite Hrec; reflexivity).
      rewrite Hw.
      erewrite bind_ok by reflexivity.
      destruct (IH Hrest assignments
                   (printed w [unknown_type_warning (class_name comp)]))
        as (found & Hrun & Hmap); [exact Hledger|].
      exists found. rewrite printed_app in Hrun.
      split; [exact Hrun|exact Hmap].
Qed.

(** C1. Let the ledger hold the identifiers [imported] and let [cutoff] be
    the cutoff of the day. From components whose properties are there
    wherever the filter reads them, [get_assignments] returns the records
    of exactly the components that are events, are not in [imported] and
    start on or after [cutoff] (a start on the cutoff is in), one record
    each, in the order of the input: the record is built from the
    identifier, the summary, the description, the start without its time
    of day, and the URL. The run prints one warning for each component of
    another kind and changes nothing else. *)
Theorem get_assignments_filters (e : env) (w : world)
    (comps : list component) (imported : list string) (cutoff : date) :
  already_imported w = ledger_of imported ->
  start_of_last_month (today e) = Ok cutoff ->
  forallb (legible imported cutoff) comps = true ->
  exists found,
    get_assignments e comps w = (Ok found, printed w (warnings comps)) /\
    map Some found = map assignment_of (filter (wanted imported cutoff) comps).
Proof.
  intros Hledger Hcutoff Hleg.
  destruct (get_assignments_from_legible e imported cutoff comps Hcutoff Hleg
              [] w Hledger) as (found & Hrun & Hmap).
  exists found. split; [exact Hrun|exact Hmap].
Qed.

Lemma get_assignments_filters_witness :
  exists found,
    get_assignments (sample_env (Ok sample_config) sample_feed "") sample_feed
                    (mkworld empty_disk [] [] (ledger_of ["u0"]))
    = (Ok found,
       printed (mkworld empty_disk [] [] (ledger_of ["u0"]))
               (warnings sample_feed)) /\
    map Some found
    = map assignment_of (filter (wanted ["u0"] (mkdate 2015 12 1)) sample_feed).
Proof.
  apply (get_assignments_filters
           (sample_env (Ok sample_config) sample_feed "")
           (mkworld empty_disk [] [] (ledger_of ["u0"]))
           sample_feed ["u0"] (mkdate 2015 12 1));
    reflexivity.
Defined.

(** The scenario of the specification: of an event on the cutoff and an
    event of the day before, the first is returned. *)
Example get_assignments_on_the_cutoff :
  get_assignments (sample_env (Ok sample_config) [] "") [event_a; event_b]
                  (mkworld empty_disk [] [] (VList []))
  = (Ok [mkAssignment "u1" "Essay" "Write it" (mkdate 2015 12 1)
                      "http://s.example/1"],
     mkworld empty_disk [] [] (VList [])).
Proof. reflexivity. Qed.

Lemma print_run (line : string) (w : world) :
  print line w = (Ok tt, printed w [line]).
Proof. reflexivity. Qed.

Lemma get_assignments_from_raises (e : env) (imported : list string)
    (cutoff : date) (comp : component) (after : list component) :
  start_of_last_month (today e) = Ok cutoff ->
  recognized comp = true ->
  legible imported cutoff comp = false ->
  forall before assignments w,
    already_imported w = ledger_of imported ->
    exists n,
      get_assignments_from e (before ++ comp :: after) assignments w
      = (Raise KeyError, printed w (warnings (firstn n before))).
Proof.
  intros Hcutoff Hrec Hleg.
  induction before as [|c rest IH]; intros assignments w Hledger.
  - exists 0%nat. cbn [app get_assignments_from firstn].
    fold (recognized comp). rewrite Hrec. cbn [negb].
    erewrite bind_raise
      by (rewrite (consider_run e w comp imported cutoff Hledger Hcutoff Hrec),
            Hleg; reflexivity).
    unfold warnings. simpl. rewrite printed_nil. reflexivity.
  - cbn [app get_assignments_from]. fold (recognized c).
    destruct (recognized c) eqn:Hc; cbn [negb].
    + destruct (legible imported cutoff c) eqn:Hlc.
      * erewrite bind_ok
          by (rewrite (consider_run e w c imported cutoff Hledger Hcutoff Hc),
                Hlc; reflexivity).
        destruct (if wanted imported cutoff c then assignment_of c else None).
        -- destruct (IH (assignments ++ [a])%list w Hledger) as (n & Hrun).
           exists (S n). rewrite Hrun. unfold warnings. cbn [firstn filter].
           fold (recognized c). rewrite Hc. reflexivity.
        -- destruct (IH assignments w Hledger) as (n & Hrun).
           exists (S n). rewrite Hrun. unfold warnings. cbn [firstn filter].
           fold (recognized c). rewrite Hc. reflexivity.
      * exists 0%nat.
        erewrite bind_raise
          by (rewrite (consider_run e w c imported cutoff Hledger Hcutoff Hc),
                Hlc; reflexivity).
        unfold warnings. simpl. rewrite printed_nil. reflexivity.
    + erewrite bind_ok by apply print_run.
      destruct (IH assignments
                   (printed w [unknown_type_warning (class_name c)]))
        as (n & Hrun); [exact Hledger|].
      exists (S n). rewrite Hrun, printed_app. unfold warnings.
      cbn [firstn filter]. fold (recognized c). rewrite Hc. reflexivity.
Qed.

(** C10, amended. Let the feed hold an event that lacks [DTSTART] or
    [UID], or that is not imported yet, starts on or after the cutoff and
    lacks [SUMMARY], [DESCRIPTION] or [URL]. Then [get_assignments] raises
    [KeyError] and prints nothing but the warnings for components of other
    kinds that stand before the point where it stopped. An event that has
    [DTSTART] and [UID] and is already imported or starts before the cutoff
    is passed over without an error and without a warning, whatever else it
    lacks. *)
Theorem get_assignments_missing_property (e : env) (w : world)
    (imported : list string) (cutoff : date) (comp : component) :
  already_imported w = ledger_of imported ->
  start_of_last_month (today e) = Ok cutoff ->
  recognized comp = true ->
  (DTSTART comp = None \/ UID comp = None \/
   (wanted imported cutoff comp = true /\
    (SUMMARY comp = None \/ DESCRIPTION comp = None \/ URL comp = None)) ->
   forall before after,
   exists n,
     get_assignments e (before ++ comp :: after) w
     = (Raise KeyError, printed w (warnings (firstn n before)))) /\
  (DTSTART comp <> None -> UID comp <> None ->
   wanted imported cutoff comp = false ->
   get_assignments e [comp] w = (Ok [], w)).
Proof.
  intros Hledger Hcutoff Hrec. split.
  - intros Hmissing before after.
    apply (get_assignments_from_raises e imported cutoff comp after
             Hcutoff Hrec); [|exact Hledger].
    unfold legible. rewrite Hrec.
    destruct Hmissing as [H|[H|[Hw H]]].
    + rewrite H. reflexivity.
    + rewrite H. destruct (DTSTART comp); reflexivity.
    + rewrite Hw. unfold assignment_of.
      destruct (DTSTART comp); [|reflexivity].
      destruct (UID comp); [|reflexivity].
      destruct H as [H|[H|H]]; rewrite H; try reflexivity.
      * destruct (SUMMARY comp); reflexivity.
      * destruct (SUMMARY comp); [|reflexivity].
        destruct (DESCRIPTION comp); reflexivity.
  - intros Hstart Hid Hw.
    unfold get_assignments. cbn [get_assignments_from].
    fold (recognized comp). rewrite Hrec. cbn [negb].
    assert (Hleg : legible imported cutoff comp = true).
    { unfold legible. rewrite Hrec, Hw.
      destruct (DTSTART comp); [|contradiction].
      destruct (UID comp); [|contradiction].
      reflexivity. }
    erewrite bind_ok
      by (rewrite (consider_run e w comp imported cutoff Hledger Hcutoff Hrec),
            Hleg, Hw; reflexivity).
    reflexivity.
Qed.

Lemma get_assignments_missing_property_witness :
  (exists n,
     get_assignments (sample_env (Ok sample_config) [] "")
       ([todo_c; event_a]
          ++ mkcomponent "Event" (Some (Date (mkdate 2016 1 20))) (Some "u9")
                         (Some "Lab") None (Some "http://s.example/9")
          :: [event_b])%list
       (mkworld empty_disk [] [] (ledger_of ["u0"]))
     = (Raise KeyError,
        printed (mkworld empty_disk [] [] (ledger_of ["u0"]))
                (warnings (firstn n [todo_c; event_a])))) /\
  get_assignments (sample_env (Ok sample_config) [] "") [event_d]
                  (mkworld empty_disk [] [] (ledger_of ["u0"]))
  = (Ok [], mkworld empty_disk [] [] (ledger_of ["u0"])).
Proof.
  split.
  - apply (proj1 (get_assignments_missing_property
                    (sample_env (Ok sample_config) [] "")
                    (mkworld empty_disk [] [] (ledger_of ["u0"]))
                    ["u0"] (mkdate 2015 12 1)
                    (mkcomponent "Event" (Some (Date (mkdate 2016 1 20)))
                                 (Some "u9") (Some "Lab") None
                                 (Some "http://s.example/9"))
                    eq_refl eq_refl eq_refl)).
    right. right. split; [reflexivity|]. right. left. reflexivity.
  - apply (proj2 (get_assignments_missing_property
                    (sample_env (Ok sample_config) [] "")
                    (mkworld empty_disk [] [] (ledger_of ["u0"]))
                    ["u0"] (mkdate 2015 12 1) event_d
                    eq_refl eq_refl eq_refl));
      [discriminate|discriminate|reflexivity].
Defined.

(** C10 as stated fails on an event that lacks [SUMMARY], [DESCRIPTION]
    and [URL] and whose identifier is in the ledger: the filter passes it
    over and raises nothing. *)
Lemma get_assignments_skips_imported_malformed :
  recognized event_d = true /\
  SUMMARY event_d = None /\
  get_assignments (sample_env (Ok sample_config) [] "") [event_d]
                  (mkworld empty_disk [] [] (ledger_of ["u0"]))
  = (Ok [], mkworld empty_disk [] [] (ledger_of ["u0"])).
Proof. repeat split. Qed.

(** ** What a run leaves alone *)

Lemma keeps_bind {A B X} (field : world -> X) (m : M A) (k : A -> M B) :
  keeps field m -> (forall a, keeps field (k a)) -> keeps field (bind m k).
Proof.
  intros Hm Hk w. unfold bind. specialize (Hm w).
  destruct (m w) as [[a|x] w']; simpl in *.
  - rewrite (Hk a w'). exact Hm.
  - exact Hm.
Qed.

Lemma keeps_lift {A X} (field : world -> X) (r : result A) :
  keeps field (lift r).
Proof. intros w. reflexivity. Qed.

Lemma keeps_ret {A X} (field : world -> X) (a : A) : keeps field (ret a).
Proof. intros w. reflexivity. Qed.

Lemma keeps_get {X} (field : world -> X) : keeps field get_already_imported.
Proof. intros w. reflexivity. Qed.

Lemma keeps_files_call {A} (r : request) (answer : list request -> result A) :
  keeps files (call r answer).
Proof. intros w. reflexivity. Qed.

Lemma keeps_ledger_call {A} (r : request) (answer : list request -> result A) :
  keeps already_imported (call r answer).
Proof. intros w. reflexivity. Qed.

Lemma keeps_files_print (line : string) : keeps files (print line).
Proof. intros w. reflexivity. Qed.

Lemma keeps_files_set (v : value) : keeps files (set_already_imported v).
Proof. intros w. reflexivity. Qed.

Create HintDb frame.
#[local] Hint Resolve keeps_lift keeps_ret keeps_get keeps_files_call
  keeps_ledger_call keeps_files_print keeps_files_set : frame.

Ltac frame :=
  repeat first
    [ apply keeps_bind; [|intros ?]
    | solve [auto with frame]
    | match goal with
      | |- keeps _ (match ?x with _ => _ end) => destruct x
      | |- keeps _ (if ?b then _ else _) => destruct b
      end ].

Lemma kept {A X} (field : world -> X) (m : M A) (w w' : world)
    (r : result A) :
  keeps field m -> m w = (r, w') -> field w' = field w.
Proof. intros H E. specialize (H w). rewrite E in H. exact H. Qed.

Lemma keeps_files_for_each {A} (xs : list A) (body : A -> M unit) :
  (forall x, keeps files (body x)) -> keeps files (for_each xs body).
Proof.
  intros Hbody. induction xs as [|x rest IH]; simpl; frame.
Qed.

Lemma keeps_comprehension {A B X} (field : world -> X) (xs : list A)
    (f : A -> M B) :
  (forall x, keeps field (f x)) -> keeps field (comprehension xs f).
Proof.
  intros Hf. induction xs as [|x rest IH]; simpl; frame.
Qed.

Lemma keeps_files_push (e : env) (project : Z) (labels : list Z)
    (a : Assignment) :
  keeps files (push e project labels a).
Proof. unfold push. frame. Qed.

Lemma keeps_files_resolve (e : env) (projectName labels : value) :
  keeps files (resolve e projectName labels).
Proof.
  unfold resolve. frame.
  apply keeps_comprehension. intros x. unfold get_label. frame.
Qed.

Lemma keeps_ledger_resolve (e : env) (projectName labels : value) :
  keeps already_imported (resolve e projectName labels).
Proof.
  unfold resolve. frame.
  apply keeps_comprehension. intros x. unfold get_label. frame.
Qed.

Lemma keeps_files_load (e : env) (path : string) :
  keeps files (load_imported_uids e path).
Proof.
  intros w. unfold load_imported_uids.
  destruct (files w path) as [| |[] text]; try reflexivity.
  destruct (json_load e text); reflexivity.
Qed.

Lemma keeps_files_login (e : env) (apiKey : string) (retries : nat) :
  keeps files (todoist_login e apiKey retries).
Proof.
  induction retries as [|n IH]; intros w; simpl;
    destruct (login_with_api_token e (network w) apiKey) as [|[]];
    try reflexivity.
  rewrite IH. reflexivity.
Qed.

Lemma keeps_files_get_assignments (e : env) (comps : list component) :
  forall assignments, keeps files (get_assignments_from e comps assignments).
Proof.
  induction comps as [|comp rest IH]; intros assignments; simpl.
  - frame.
  - destruct (negb _).
    + frame.
    + apply keeps_bind.
      * unfold consider. frame.
      * intros [a|]; apply IH.
Qed.

Lemma keeps_files_main_config (e : env) : keeps files (main_config e).
Proof. unfold main_config, raise. frame. Qed.

Lemma keeps_files_main_fetch (e : env) (config : value) (path : string) :
  keeps files (main_fetch e config path).
Proof.
  unfold main_fetch. frame.
  - apply keeps_files_load.
  - apply keeps_files_login.
  - apply keeps_files_get_assignments.
Qed.

Lemma push_ok_ledger (e : env) (project : Z) (labels : list Z)
    (a : Assignment) (w w' : world) (imported : list string) :
  already_imported w = ledger_of imported ->
  push e project labels a w = (Ok tt, w') ->
  already_imported w' = ledger_of (imported ++ [uid a]).
Proof.
  intros Hledger.
  unfold push, bind, call, lift, get_already_imported, set_already_imported.
  simpl.
  destruct (project_add_task e (network w) project _); [|discriminate].
  destruct (task_update e _ _); [|discriminate].
  rewrite Hledger. simpl. intros H. injection H as <-. simpl.
  unfold ledger_of. rewrite map_app. reflexivity.
Qed.

(** The ledger in memory after the pushes that succeeded. *)
Lemma for_each_push_ledger (e : env) (project : Z) (labels : list Z)
    (pushed : list Assignment) :
  forall w w' imported,
    already_imported w = ledger_of imported ->
    for_each pushed (push e project labels) w = (Ok tt, w') ->
    already_imported w' = ledger_of (imported ++ map uid pushed).
Proof.
  induction pushed as [|a rest IH]; intros w w' imported Hledger Hrun.
  - simpl in Hrun. injection Hrun as <-. rewrite app_nil_r. exact Hledger.
  - simpl in Hrun. unfold bind at 1 in Hrun.
    destruct (push e project labels a w) as [[[]|x] w1] eqn:Hpush;
      [|discriminate].
    rewrite (IH w1 w' (imported ++ [uid a])%list
                (push_ok_ledger _ _ _ _ _ _ _ Hledger Hpush) Hrun).
    rewrite <- app_assoc. reflexivity.
Qed.

(** A push that raises has not touched the ledger in memory. *)
Lemma push_raises_ledger (e : env) (project : Z) (labels : list Z)
    (a : Assignment) (w w' : world) (x : exn) :
  push e project labels a w = (Raise x, w') ->
  already_imported w' = already_imported w.
Proof.
  unfold push, bind, call, lift, get_already_imported, set_already_imported.
  simpl.
  destruct (project_add_task e (network w) project _);
    [|intros H; injection H as _ <-; reflexivity].
  destruct (task_update e _ _);
    [|intros H; injection H as _ <-; reflexivity].
  destruct (append (already_imported w) (uid a));
    [discriminate|intros H; injection H as _ <-; reflexivity].
Qed.

Lemma for_each_raises {A} (before after : list A) (x : A) (body : A -> M unit)
    (w w1 w2 : world) (err : exn) :
  for_each before body w = (Ok tt, w1) ->
  body x w1 = (Raise err, w2) ->
  for_each (before ++ x :: after) body w = (Raise err, w2).
Proof.
  revert w. induction before as [|b rest IH]; intros w Hbefore Hx.
  - simpl in Hbefore. injection Hbefore as <-.
    simpl. apply bind_raise. exact Hx.
  - simpl in *. unfold bind at 1 in Hbefore. unfold bind at 1.
    destruct (body b w) as [[[]|y] w0]; [|discriminate].
    apply IH; assumption.
Qed.

(** ** A push that fails *)

Lemma bind_lift {A B} (r : result A) (k : A -> M B) (w : world) :
  bind (lift r) k w = match r with
                      | Ok a => k a w
                      | Raise x => (Raise x, w)
                      end.
Proof. unfold bind, lift. destruct r; reflexivity. Qed.

(** C2, amended. Let a run reach the loop of [todoist_add] with the ledger
    [imported] in memory, let the pushes of the assignments [before]
    succeed and let the push of the next one raise [x]. Then the run ends
    with [x]; the ledger in memory holds [imported] and, after it, the
    identifiers of [before]; and the disk is as it was when the run began:
    [store_imported_uids] is not reached, so the ledger file is not
    written. *)
Theorem main_push_failure (e : env) (w w0 w1 w2 w3 w4 : world)
    (cp : value * string) (before after : list Assignment) (a : Assignment)
    (imported : list string) (project labels : value) (pl : Z * list Z)
    (x : exn) :
  main_config e w = (Ok cp, w0) ->
  main_fetch e (fst cp) (snd cp) w0 = (Ok (before ++ a :: after)%list, w1) ->
  already_imported w1 = ledger_of imported ->
  config_value (fst cp) "todoist" "project" = Ok project ->
  config_value (fst cp) "todoist" "labels" = Ok labels ->
  resolve e project labels w1 = (Ok pl, w2) ->
  for_each before (push e (fst pl) (snd pl)) w2 = (Ok tt, w3) ->
  push e (fst pl) (snd pl) a w3 = (Raise x, w4) ->
  main e w = (Raise x, w4) /\
  already_imported w4 = ledger_of (imported ++ map uid before) /\
  files w4 = files w.
Proof.
  intros Hconfig Hfetch Hledger Hproject Hlabels Hresolve Hbefore Hpush.
  split; [|split].
  - unfold main.
    rewrite (bind_ok _ _ _ _ _ Hconfig), (bind_ok _ _ _ _ _ Hfetch).
    unfold main_push. rewrite bind_lift, Hproject, bind_lift, Hlabels.
    apply bind_raise. unfold todoist_add.
    rewrite (bind_ok _ _ _ _ _ Hresolve).
    exact (for_each_raises before after a _ w2 w3 w4 x Hbefore Hpush).
  - rewrite (push_raises_ledger _ _ _ _ _ _ _ Hpush).
    apply (for_each_push_ledger e (fst pl) (snd pl) before w2 w3);
      [|exact Hbefore].
    rewrite (kept _ _ _ _ _ (keeps_ledger_resolve e project labels) Hresolve).
    exact Hledger.
  - rewrite (kept _ _ _ _ _ (keeps_files_push e _ _ a) Hpush).
    rewrite (kept _ _ _ _ _
               (keeps_files_for_each before _ (keeps_files_push e _ _))
               Hbefore).
    rewrite (kept _ _ _ _ _ (keeps_files_resolve e project labels) Hresolve).
    rewrite (kept _ _ _ _ _ (keeps_files_main_fetch e _ _) Hfetch).
    exact (kept _ _ _ _ _ (keeps_files_main_config e) Hconfig).
Qed.

Lemma main_push_failure_witness :
  main lab_fails (start empty_disk) = (Raise (External "HTTPError"), lab_failed) /\
  already_imported lab_failed = ledger_of ([] ++ map uid [essay]) /\
  files lab_failed = files (start empty_disk).
Proof.
  apply (main_push_failure lab_fails (start empty_disk) (start empty_disk)
           lab_filtered lab_resolved lab_pushed lab_failed lab_config
           [essay] [] lab [] (VStr "Inbox")
           (VList [VStr "School"; VStr "Imported"]) (1, [4; 6])%Z
           (External "HTTPError"));
    vm_compute; reflexivity.
Defined.

(** C2 as stated fails: the task of [u1] is created, the task of [u9] is
    refused, the run ends with that error, [u1] is in the ledger in
    memory, and no ledger file exists afterwards. *)
Lemma main_push_failure_loses_ledger :
  fst (main lab_fails (start empty_disk)) = Raise (External "HTTPError") /\
  already_imported (snd (main lab_fails (start empty_disk)))
  = ledger_of ["u1"] /\
  files (snd (main lab_fails (start empty_disk)))
        "/home/user/.todology/imported.json" = NoEntry.
Proof. repeat split. Qed.

(** The scenario of the specification, where every push succeeds: the
    ledger file then holds the identifier of the event on the cutoff. *)
Example main_persists_after_success :
  fst (main (sample_env (Ok sample_config) [event_a; event_b] "")
            (start empty_disk)) = Ok tt /\
  files (snd (main (sample_env (Ok sample_config) [event_a; event_b] "")
                   (start empty_disk)))
        "/home/user/.todology/imported.json"
  = File true ("[" ++ quote ++ "u1" ++ quote ++ "]").
Proof. split; reflexivity. Qed.

(** ** Validation of the configuration *)

Lemma config_value_store (items : list (string * value)) (v : value)
    (section key : string) :
  section <> "storage" ->
  config_value (VDict (store items "storage" v)) section key
  = config_value (VDict items) section key.
Proof.
  intros Hne. unfold config_value, getitem.
  rewrite lookup_store_other by congruence. reflexivity.
Qed.

(** C8, amended. If, after the merge, the API credential or the feed
    address is not a string, the run ends with an exception before it
    loads the ledger or sends any request: the state is untouched. (An
    empty string is a string, and passes.) *)
Theorem main_rejects_non_string (e : env) (w : world) (doc config : value) :
  config_yml e = Ok doc ->
  merge doc DEFAULT_CONFIG = Ok config ->
  string_field config "todoist" "apiToken" = false \/
  string_field config "schoology" "calendar" = false ->
  exists x, main e w = (Raise x, w).
Proof.
  intros Hdoc Hmerge Hfield.
  assert (Hconfig : exists x, main_config e w = (Raise x, w)).
  { unfold main_config. rewrite bind_lift, Hdoc, bind_lift, Hmerge.
    apply merge_default_is_dict in Hmerge.
    destruct config as [| | | | |items]; try discriminate. cbn [is_dict negb].
    unfold bind at 1. cbn [ret].
    rewrite bind_lift. unfold getitem at 1.
    destruct (lookup items "storage") as [storage|];
      [|eexists; reflexivity].
    rewrite bind_lift.
    destruct (as_str storage) as [dir|]; [|eexists; reflexivity].
    rewrite bind_lift. cbn [setitem].
    rewrite bind_lift. unfold getitem at 1. rewrite lookup_store_same.
    rewrite bind_lift. cbn [as_str].
    rewrite bind_lift, config_value_store by discriminate.
    unfold string_field in Hfield.
    destruct (config_value (VDict items) "todoist" "apiToken")
      as [apiToken|]; [|eexists; reflexivity].
    destruct (is_str apiToken) eqn:Htoken; cbn [negb];
      [|eexists; reflexivity].
    rewrite bind_lift, config_value_store by discriminate.
    destruct (config_value (VDict items) "schoology" "calendar")
      as [calendar|]; [|eexists; reflexivity].
    destruct (is_str calendar) eqn:Hcal; cbn [negb];
      [|eexists; reflexivity].
    destruct apiToken; try discriminate.
    destruct calendar; try discriminate.
    destruct Hfield; discriminate. }
  destruct Hconfig as (x & Hx). exists x.
  unfold main. apply bind_raise. exact Hx.
Qed.

Lemma main_rejects_non_string_witness :
  exists x,
    main (sample_env (Ok (VDict [("todoist", VDict [("apiToken", VInt 42)])]))
                     [] "")
         (start empty_disk)
    = (Raise x, start empty_disk).
Proof.
  eapply (main_rejects_non_string _ _
            (VDict [("todoist", VDict [("apiToken", VInt 42)])])).
  - reflexivity.
  - reflexivity.
  - left. reflexivity.
Defined.

(** C8 as stated fails for the empty string: with an empty credential
    and an empty feed address the run logs in and fetches [https://]. *)
Lemma main_accepts_empty_strings :
  config_value empty_strings_config "todoist" "apiToken" = Ok (VStr "") /\
  config_value empty_strings_config "schoology" "calendar" = Ok (VStr "") /\
  fst (main (sample_env (Ok empty_strings_config) [] "") (start empty_disk))
  = Ok tt /\
  network (snd (main (sample_env (Ok empty_strings_config) [] "")
                     (start empty_disk)))
  = [ Login ""; Urlopen "https://"; GetProject (VStr "Inbox");
      GetLabel (VStr "Todology"); AddLabel (VStr "Todology");
      AddProject (VStr "Inbox") ].
Proof. repeat split. Qed.

(** Past the validation, both fields are strings. *)
Lemma main_config_strings (e : env) (w w' : world) (cp : value * string) :
  main_config e w = (Ok cp, w') ->
  string_field (fst cp) "todoist" "apiToken" = true /\
  string_field (fst cp) "schoology" "calendar" = true.
Proof.
  unfold main_config. rewrite bind_lift.
  destruct (config_yml e) as [doc|]; [|discriminate].
  rewrite bind_lift.
  destruct (merge doc DEFAULT_CONFIG) as [config|] eqn:Hmerge; [|discriminate].
  apply merge_default_is_dict in Hmerge.
  destruct config as [| | | | |items]; try discriminate. cbn [is_dict negb].
  unfold bind at 1. cbn [ret].
  rewrite bind_lift. unfold getitem at 1.
  destruct (lookup items "storage") as [storage|]; [|discriminate].
  rewrite bind_lift.
  destruct (as_str storage) as [dir|]; [|discriminate].
  rewrite bind_lift. cbn [setitem].
  rewrite bind_lift. unfold getitem at 1. rewrite lookup_store_same.
  rewrite bind_lift. cbn [as_str]. rewrite bind_lift.
  destruct (config_value _ "todoist" "apiToken") as [apiToken|] eqn:Ht;
    [|discriminate].
  destruct (is_str apiToken) eqn:Htoken; cbn [negb]; [|discriminate].
  rewrite bind_lift.
  destruct (config_value _ "schoology" "calendar") as [calendar|] eqn:Hc;
    [|discriminate].
  destruct (is_str calendar) eqn:Hcal; cbn [negb]; [|discriminate].
  intros H. injection H as <- _. unfold string_field. cbn [fst].
  rewrite Ht, Hc.
  destruct apiToken; try discriminate. destruct calendar; try discriminate.
  split; reflexivity.
Qed.

(** ** The rate limit *)

Section RateLimitFacts.

Import RateLimit.
Local Open Scope Q_scope.

Lemma final_snoc (log : list (Q * Q)) (entry : Q * Q) :
  final (log ++ [entry]) = Some entry.
Proof.
  induction log as [|e rest IH]; [reflexivity|].
  simpl. rewrite IH. reflexivity.
Qed.

Lemma spaced_snoc (gap : Q) (log : list (Q * Q)) (began ended : Q) :
  spaced gap log ->
  (forall b e, final log = Some (b, e) -> e + gap <= began) ->
  spaced gap (log ++ [(began, ended)]).
Proof.
  induction log as [|[b0 e0] rest IH]; intros Hs Hlast; [exact I|].
  destruct rest as [|[b1 e1] rest'].
  - simpl. split; [|exact I]. apply (Hlast b0 e0). reflexivity.
  - destruct Hs as [Hgap Hs].
    change (e0 + gap <= b1 /\ spaced gap (((b1, e1) :: rest') ++ [(began, ended)])).
    split; [exact Hgap|].
    apply IH; [exact Hs|].
    intros b e Hf. apply (Hlast b e).
    change (final ((b0, e0) :: (b1, e1) :: rest'))
      with (match final ((b1, e1) :: rest') with
            | Some last => Some last
            | None => Some (b0, e0)
            end).
    rewrite Hf. reflexivity.
Qed.

(** One invocation: the decorated function is called once, no sooner than
    [1 / max_per_second] seconds after the previous call ended, and when it
    returns the state is settled again. *)
Lemma rate_limited_step (max_per_second : Q) (i : invocation) (s : state) :
  well_timed i ->
  settled s ->
  spaced (1 / max_per_second) (calls s) ->
  let s' := snd (rate_limited max_per_second i s) in
  spaced (1 / max_per_second) (calls s') /\
  length (calls s') = S (length (calls s)) /\
  (forall ret, fst (rate_limited max_per_second i s) = Ok ret -> settled s').
Proof.
  intros (Hidle & Hrun & Hover & _) Hsettled Hspaced.
  destruct Hidle as [Hidle0 Hidle1]. destruct Hrun as [Hrun0 Hrun1].
  unfold rate_limited.
  set (gap := 1 / max_per_second).
  set (s1 := pass (idle i) s).
  set (wait := gap - (clock s1 - last_time_called s1)).
  set (s2 := if Qlt_le_dec 0 wait then sleep wait i s1 else s1).
  assert (Hcalls2 : calls s2 = calls s)
    by (unfold s2; destruct (Qlt_le_dec 0 wait); reflexivity).
  assert (Hbegin : forall b e, final (calls s) = Some (b, e) ->
                               e + gap <= wall s2).
  { intros b e Hf. specialize (Hsettled b e Hf).
    unfold s2, wait, s1, sleep, pass in *.
    destruct (Qlt_le_dec _ _) as [Hw|Hw]; simpl in *; lra. }
  assert (Hlog : spaced gap (calls s2 ++ [(wall s2, wall (pass (running i) s2))])).
  { rewrite Hcalls2. apply spaced_snoc; assumption. }
  destruct (outcome i) as [ret|x]; simpl.
  - split; [exact Hlog|]. split.
    + rewrite length_app, Hcalls2. simpl. apply Nat.add_1_r.
    + intros _ _ b e Hf. simpl in Hf. rewrite final_snoc in Hf.
      injection Hf as _ <-. simpl. lra.
  - split; [exact Hlog|]. split.
    + rewrite length_app, Hcalls2. simpl. apply Nat.add_1_r.
    + discriminate.
Qed.

Lemma spaced_shorter (gap gap' : Q) (log : list (Q * Q)) :
  gap' <= gap -> spaced gap log -> spaced gap' log.
Proof.
  intros Hle. induction log as [|[b0 e0] rest IH]; intros Hs; [exact I|].
  destruct rest as [|[b1 e1] rest']; [exact I|].
  destruct Hs as [Hgap Hs]. split; [lra|exact (IH Hs)].
Qed.

Lemma run_spaced (invocations : list invocation) :
  Forall well_timed invocations ->
  forall s,
    settled s ->
    spaced (1 / (1 # 2)) (calls s) ->
    spaced (1 / (1 # 2)) (calls (snd (run invocations s))) /\
    length (calls (snd (run invocations s)))
    = (length (calls s) + started invocations)%nat.
Proof.
  induction 1 as [|i rest Hi Hrest IH]; intros s Hsettled Hspaced.
  - simpl. split; [exact Hspaced|]. rewrite Nat.add_0_r. reflexivity.
  - destruct (rate_limited_step (1 # 2) i s Hi Hsettled Hspaced)
      as (Hs' & Hlen & Hset).
    cbn [run started]. unfold todoist_add.
    assert (Hout : forall x, outcome i = Raise x ->
                             exists s', rate_limited (1 # 2) i s = (Raise x, s')).
    { intros x Hx. unfold rate_limited. rewrite Hx. eexists. reflexivity. }
    assert (Hok : forall r, outcome i = Ok r ->
                            exists s', rate_limited (1 # 2) i s = (Ok r, s')).
    { intros r Hr. unfold rate_limited. rewrite Hr. eexists. reflexivity. }
    destruct (outcome i) as [r|x].
    + destruct (Hok r eq_refl) as (s' & E). rewrite E in *. cbn [fst snd] in *.
      destruct (IH s' (Hset r eq_refl) Hs') as (G1 & G2).
      split; [exact G1|]. rewrite G2, Hlen. lia.
    + destruct (Hout x eq_refl) as (s' & E). rewrite E in *. cbn [fst snd] in *.
      split; [exact Hs'|]. rewrite Hlen. lia.
Qed.

(** C6. In a process that invokes the rate-limited [todoist_add] any
    number of times, each call of the function under the decorator begins
    at least 2 seconds of real time after the call before it ended, so the
    requests of one invocation are at least 2 seconds after those of the
    invocation before; and every invocation that is reached calls the
    function, exactly once: the decorator sleeps, it never skips. The
    function under the decorator is arbitrary here, so this holds however
    many assignments an invocation pushes. *)
Theorem rate_limited_spacing (invocations : list invocation)
    (wall0 clock0 : Q) :
  Forall well_timed invocations ->
  spaced 2 (calls (snd (run invocations (boot wall0 clock0)))) /\
  length (calls (snd (run invocations (boot wall0 clock0))))
  = started invocations.
Proof.
  intros Hall.
  destruct (run_spaced invocations Hall (boot wall0 clock0)) as (Hs & Hlen).
  - intros b e Hf. discriminate.
  - exact I.
  - split; [|exact Hlen].
    apply (spaced_shorter (1 / (1 # 2))); [|exact Hs].
    unfold Qle. simpl. lia.
Qed.

Lemma back_to_back_well_timed : Forall well_timed back_to_back.
Proof.
  repeat constructor; unfold Qle; simpl; lia.
Defined.

Lemma rate_limited_spacing_witness :
  spaced 2 (calls (snd (run back_to_back (boot 1000 (3 # 10))))) /\
  length (calls (snd (run back_to_back (boot 1000 (3 # 10)))))
  = started back_to_back.
Proof.
  exact (rate_limited_spacing back_to_back 1000 (3 # 10)
           back_to_back_well_timed).
Defined.

(** The decorator hands through what the function returns or raises. *)
Lemma rate_limited_result (max_per_second : Q) (i : invocation) (s : state) :
  fst (rate_limited max_per_second i s) = outcome i.
Proof. unfold rate_limited. destruct (outcome i); reflexivity. Qed.

End RateLimitFacts.

(** * Further properties of the code *)

(** ** The filter only prints *)

Lemma keeps_ledger_print (line : string) : keeps already_imported (print line).
Proof. intros w. reflexivity. Qed.

Lemma keeps_network_print (line : string) : keeps network (print line).
Proof. intros w. reflexivity. Qed.

#[local] Hint Resolve keeps_ledger_print keeps_network_print : frame.

Lemma keeps_consider {X} (field : world -> X) (e : env) (comp : component) :
  keeps field (consider e comp).
Proof. unfold consider. frame. Qed.

Lemma keeps_get_assignments_from {X} (field : world -> X) (e : env)
    (comps : list component) :
  (forall line, keeps field (print line)) ->
  forall assignments, keeps field (get_assignments_from e comps assignments).
Proof.
  intros Hprint.
  induction comps as [|comp rest IH]; intros assignments; simpl.
  - frame.
  - destruct (negb _).
    + apply keeps_bind; [apply Hprint|intros _; apply IH].
    + apply keeps_bind; [apply keeps_consider|].
      intros [a|]; apply IH.
Qed.

(** X1. Whatever the feed and the ledger hold, and whether it returns or
    raises, [get_assignments] sends no request, writes no file and leaves
    the ledger in memory as it is: all it does to the state is print. *)
Theorem get_assignments_only_prints (e : env) (cal : list component)
    (w : world) :
  network (snd (get_assignments e cal w)) = network w /\
  files (snd (get_assignments e cal w)) = files w /\
  already_imported (snd (get_assignments e cal w)) = already_imported w.
Proof.
  unfold get_assignments. repeat split.
  - apply (keeps_get_assignments_from network); intros; apply keeps_network_print.
  - apply (keeps_get_assignments_from files); intros; apply keeps_files_print.
  - apply (keeps_get_assignments_from already_imported); intros;
      apply keeps_ledger_print.
Qed.

(** ** Import, then filter again *)

Lemma wanted_more (imported more : list string) (cutoff : date)
    (comp : component) :
  wanted imported cutoff comp = false ->
  wanted (imported ++ more) cutoff comp = false.
Proof.
  unfold wanted. destruct (recognized comp); [|reflexivity]. cbn [andb].
  destruct (DTSTART comp); [|reflexivity].
  destruct (UID comp) as [id|]; [|reflexivity].
  rewrite existsb_app.
  destruct (existsb (String.eqb id) imported); [reflexivity|].
  cbn [negb andb orb]. intros H. rewrite H. apply andb_false_r.
Qed.

Lemma wanted_imported (imported : list string) (cutoff : date)
    (comp : component) (id : string) :
  UID comp = Some id ->
  existsb (String.eqb id) imported = true ->
  wanted imported cutoff comp = false.
Proof.
  intros Hid Hin. unfold wanted. rewrite Hid, Hin.
  destruct (recognized comp); [|reflexivity].
  destruct (DTSTART comp); reflexivity.
Qed.

Lemma assignment_of_uid (comp : component) (a : Assignment) :
  assignment_of comp = Some a -> UID comp = Some (uid a).
Proof.
  unfold assignment_of.
  destruct (UID comp); [|discriminate].
  destruct (SUMMARY comp); [|discriminate].
  destruct (DESCRIPTION comp); [|discriminate].
  destruct (DTSTART comp); [|discriminate].
  destruct (URL comp); [|discriminate].
  intros H. injection H as <-. reflexivity.
Qed.

Lemma filter_none {A} (f : A -> bool) (xs : list A) :
  (forall x, In x xs -> f x = false) -> filter f xs = [].
Proof.
  induction xs as [|x rest IH]; intros H; [reflexivity|].
  simpl. rewrite (H x (or_introl eq_refl)).
  apply IH. intros y Hy. apply H. right. exact Hy.
Qed.

Lemma legible_fields (imported : list string) (cutoff : date)
    (comp : component) :
  legible imported cutoff comp = true ->
  recognized comp = true ->
  DTSTART comp <> None /\ UID comp <> None /\
  (wanted imported cutoff comp = true -> assignment_of comp <> None).
Proof.
  unfold legible. intros H Hrec. rewrite Hrec in H.
  destruct (DTSTART comp); [|discriminate].
  destruct (UID comp); [|discriminate].
  repeat split; try discriminate.
  intros Hw. rewrite Hw in H.
  destruct (assignment_of comp); discriminate.
Qed.

(** Once the identifiers that the filter returned are in the ledger, no
    component of the same feed is wanted any more. *)
Lemma wanted_after_import (imported : list string) (cutoff : date)
    (comps : list component) (found : list Assignment) :
  forallb (legible imported cutoff) comps = true ->
  map Some found = map assignment_of (filter (wanted imported cutoff) comps) ->
  forall comp, In comp comps ->
    wanted (imported ++ map uid found) cutoff comp = false.
Proof.
  intros Hleg Hmap comp Hin.
  destruct (wanted imported cutoff comp) eqn:Hw; [|exact (wanted_more _ _ _ _ Hw)].
  assert (Hrec : recognized comp = true)
    by (unfold wanted in Hw; destruct (recognized comp); [reflexivity|discriminate]).
  rewrite forallb_forall in Hleg.
  destruct (legible_fields _ _ _ (Hleg comp Hin) Hrec) as (_ & _ & Ha).
  destruct (assignment_of comp) as [a|] eqn:Hassign; [|exfalso; exact (Ha Hw eq_refl)].
  apply (wanted_imported _ _ _ (uid a) (assignment_of_uid _ _ Hassign)).
  rewrite existsb_app. apply orb_true_iff. right.
  apply existsb_exists. exists (uid a). split; [|apply String.eqb_refl].
  apply in_map.
  assert (Hsome : In (Some a) (map Some found)).
  { rewrite Hmap, <- Hassign. apply in_map. apply filter_In. auto. }
  apply in_map_iff in Hsome as (a' & E & Hin'). injection E as ->. exact Hin'.
Qed.

Lemma todoist_add_ledger (e : env) (projectName labels : value)
    (assignments : list Assignment) (w w' : world) (imported : list string) :
  already_imported w = ledger_of imported ->
  todoist_add e projectName labels assignments w = (Ok tt, w') ->
  already_imported w' = ledger_of (imported ++ map uid assignments).
Proof.
  intros Hledger Hrun. unfold todoist_add, bind in Hrun.
  destruct (resolve e projectName labels w) as [[pl|x] w1] eqn:Hresolve;
    [|discriminate].
  apply (for_each_push_ledger e (fst pl) (snd pl) assignments w1 w');
    [|exact Hrun].
  rewrite (kept _ _ _ _ _ (keeps_ledger_resolve e projectName labels) Hresolve).
  exact Hledger.
Qed.

(** X2. When [todoist_add] returns, the ledger in memory holds what it held
    before and, after that, the identifier of every assignment, in the
    order of the assignments. *)
Theorem todoist_add_appends (e : env) (projectName labels : value)
    (assignments : list Assignment) (w w' : world) (imported : list string) :
  already_imported w = ledger_of imported ->
  todoist_add e projectName labels assignments w = (Ok tt, w') ->
  already_imported w' = ledger_of (imported ++ map uid assignments).
Proof. apply todoist_add_ledger. Qed.

(** X3. A feed that was filtered and pushed is filtered to nothing afterwards:
    if [get_assignments] returned [found] and [todoist_add] pushed all of
    it, then [get_assignments] on the same feed returns the empty list. *)
Theorem get_assignments_after_import (e : env) (w w1 w2 : world)
    (comps : list component) (imported : list string) (cutoff : date)
    (found : list Assignment) (projectName labels : value) :
  already_imported w = ledger_of imported ->
  start_of_last_month (today e) = Ok cutoff ->
  forallb (legible imported cutoff) comps = true ->
  get_assignments e comps w = (Ok found, w1) ->
  todoist_add e projectName labels found w1 = (Ok tt, w2) ->
  get_assignments e comps w2 = (Ok [], printed w2 (warnings comps)).
Proof.
  intros Hledger Hcutoff Hleg Hfilter Hpush.
  destruct (get_assignments_from_legible e imported cutoff comps Hcutoff Hleg
              [] w Hledger) as (found' & Hrun & Hmap).
  unfold get_assignments in Hfilter. rewrite Hrun in Hfilter.
  injection Hfilter as -> <-.
  assert (Hledger2 : already_imported w2
                     = ledger_of (imported ++ map uid found)).
  { apply (todoist_add_ledger e projectName labels found
             (printed w (warnings comps)) w2); [exact Hledger|exact Hpush]. }
  pose proof (wanted_after_import imported cutoff comps found Hleg Hmap) as Hnone.
  assert (Hleg2 : forallb (legible (imported ++ map uid found) cutoff) comps
                  = true).
  { apply forallb_forall. intros comp Hin. unfold legible.
    destruct (recognized comp) eqn:Hrec; [|reflexivity].
    rewrite forallb_forall in Hleg.
    destruct (legible_fields _ _ _ (Hleg comp Hin) Hrec) as (Hs & Hi & _).
    destruct (DTSTART comp); [|contradiction].
    destruct (UID comp); [|contradiction].
    rewrite (Hnone comp Hin). reflexivity. }
  destruct (get_assignments_from_legible e (imported ++ map uid found) cutoff
              comps Hcutoff Hleg2 [] w2 Hledger2) as (again & Hrun2 & Hmap2).
  rewrite (filter_none _ _ Hnone) in Hmap2.
  destruct again; [|discriminate].
  exact Hrun2.
Qed.

Lemma todoist_add_appends_witness :
  already_imported with_u0_pushed = ledger_of (["u0"] ++ map uid [essay]).
Proof.
  apply (todoist_add_appends calm (VStr "Inbox") (VList [VStr "Todology"])
           [essay] with_u0_filtered with_u0_pushed ["u0"]);
    vm_compute; reflexivity.
Defined.

Lemma get_assignments_after_import_witness :
  get_assignments calm sample_feed with_u0_pushed
  = (Ok [], printed with_u0_pushed (warnings sample_feed)).
Proof.
  apply (get_assignments_after_import calm with_u0 with_u0_filtered
           with_u0_pushed sample_feed ["u0"] (mkdate 2015 12 1) [essay]
           (VStr "Inbox") (VList [VStr "Todology"]));
    vm_compute; reflexivity.
Defined.

(** ** The login retries *)

Lemma repeat_snoc {A} (x : A) (m : nat) :
  ([x] ++ repeat x m)%list = repeat x (S m).
Proof. reflexivity. Qed.

(** X4. [todoist_login] with [n] retries left sends between one and [n + 1]
    login requests and nothing else, touches no other part of the state,
    and never lets a [KeyError] out. With the 10 retries that [main] allows
    this is at most 11 requests. *)
Theorem todoist_login_attempts (e : env) (apiKey : string) (n : nat) :
  forall w,
    (exists m, (1 <= m <= S n)%nat /\
               snd (todoist_login e apiKey n w)
               = mkworld (files w) (stdout w)
                         (network w ++ repeat (Login apiKey) m)
                         (already_imported w)) /\
    fst (todoist_login e apiKey n w) <> Raise KeyError.
Proof.
  induction n as [|n IH]; intros w; cbn [todoist_login]; unfold call.
  - destruct (login_with_api_token e (network w) apiKey) as [[]|x].
    + split; [exists 1%nat; split; [lia|reflexivity]|discriminate].
    + destruct x; (split; [exists 1%nat; split; [lia|reflexivity]|discriminate]).
  - destruct (login_with_api_token e (network w) apiKey) as [[]|x].
    + split; [exists 1%nat; split; [lia|reflexivity]|discriminate].
    + destruct x;
        try (split; [exists 1%nat; split; [lia|reflexivity]|discriminate]).
      match goal with
      | |- context [todoist_login e apiKey n ?w1] =>
          destruct (IH w1) as ((m & Hm & Hw) & Hno)
      end.
      split; [|exact Hno].
      exists (S m). split; [lia|].
      rewrite Hw. cbn [files stdout network already_imported].
      rewrite <- app_assoc, repeat_snoc. reflexivity.
Qed.

(** X5. If Todoist answers every attempt with a [KeyError], the login gives up
    with an [Exception] after exactly [n + 1] attempts. *)
Theorem todoist_login_gives_up (e : env) (apiKey : string) (n : nat) :
  (forall h, login_with_api_token e h apiKey = Raise KeyError) ->
  forall w,
    exists msg,
      todoist_login e apiKey n w
      = (Raise (Exception_ msg),
         mkworld (files w) (stdout w)
                 (network w ++ repeat (Login apiKey) (S n))
                 (already_imported w)).
Proof.
  intros Hkey. induction n as [|n IH]; intros w; cbn [todoist_login];
    unfold call; rewrite Hkey.
  - eexists. reflexivity.
  - match goal with
    | |- context [todoist_login e apiKey n ?w1] =>
        destruct (IH w1) as (msg & Hrun)
    end.
    exists msg. rewrite Hrun. cbn [files stdout network already_imported].
    rewrite <- app_assoc, repeat_snoc. reflexivity.
Qed.

(** ** Storing and loading the ledger *)

Lemma write_node_same (path : string) (n : node) (w : world) :
  files (write_node path n w) path = n.
Proof. unfold write_node. simpl. rewrite String.eqb_refl. reflexivity. Qed.

Lemma write_node_other (path p : string) (n : node) (w : world) :
  p <> path -> files (write_node path n w) p = files w p.
Proof.
  intros Hne. unfold write_node. simpl.
  destruct (String.eqb_spec p path); [contradiction|reflexivity].
Qed.

(** What a successful [store_imported_uids] leaves behind. *)
Lemma store_imported_uids_ok (e : env) (directory path : string)
    (w w' : world) :
  store_imported_uids e directory path w = (Ok tt, w') ->
  w' = write_node path (File true (json_dump e (already_imported w)))
                  (write_node directory Directory w) /\
  directory <> path.
Proof.
  unfold store_imported_uids, bind, makedirs, get_already_imported, write_file.
  destruct (files w directory) eqn:Hdir; try discriminate.
  - destruct (String.eqb_spec directory path) as [->|Hne].
    + rewrite write_node_same. discriminate.
    + rewrite write_node_other by congruence.
      destruct (files w path) as [| |[] text]; try discriminate;
        intros H; injection H as <-; split; auto.
  - destruct (String.eqb_spec directory path) as [->|Hne].
    + rewrite write_node_same. discriminate.
    + rewrite write_node_other by congruence.
      destruct (files w path) as [| |[] text]; try discriminate;
        intros H; injection H as <-; split; auto.
Qed.



(** A directory path that names a file stops the store before anything is
    written. *)
Lemma store_imported_uids_file_in_the_way (e : env) (directory path : string)
    (w : world) (openable : bool) (text : string) :
  files w directory = File openable text ->
  store_imported_uids e directory path w
  = (Raise (External "FileExistsError"), w).
Proof.
  intros H. unfold store_imported_uids, bind, makedirs. rewrite H. reflexivity.
Qed.

Lemma todoist_login_gives_up_witness :
  exists msg,
    todoist_login stubborn "0123abcd" 10 (start empty_disk)
    = (Raise (Exception_ msg),
       mkworld (files (start empty_disk)) (stdout (start empty_disk))
               (network (start empty_disk) ++ repeat (Login "0123abcd") 11)
               (already_imported (start empty_disk))).
Proof.
  apply (todoist_login_gives_up stubborn "0123abcd" 10).
  intros h. reflexivity.
Defined.


(** ** A run that succeeds *)

(** Past [main_config], the configuration holds the storage directory as a
    string, the ledger path lies in that directory, and the state is as it
    was. *)
Lemma main_config_storage (e : env) (w w' : world) (cp : value * string) :
  main_config e w = (Ok cp, w') ->
  w' = w /\
  exists dir,
    getitem (fst cp) "storage" = Ok (VStr dir) /\
    snd cp = dir ++ "/" ++ STORAGE_FILE_NAMES_imported.
Proof.
  unfold main_config. rewrite bind_lift.
  destruct (config_yml e) as [doc|]; [|discriminate].
  rewrite bind_lift.
  destruct (merge doc DEFAULT_CONFIG) as [config|] eqn:Hmerge; [|discriminate].
  apply merge_default_is_dict in Hmerge.
  destruct config as [| | | | |items]; try discriminate. cbn [is_dict negb].
  unfold bind at 1. cbn [ret].
  rewrite bind_lift. unfold getitem at 1.
  destruct (lookup items "storage") as [storage|]; [|discriminate].
  rewrite bind_lift.
  destruct (as_str storage) as [dir|]; [|discriminate].
  rewrite bind_lift. cbn [setitem].
  rewrite bind_lift. unfold getitem at 1. rewrite lookup_store_same.
  rewrite bind_lift. cbn [as_str]. rewrite bind_lift.
  destruct (config_value _ "todoist" "apiToken") as [apiToken|];
    [|discriminate].
  destruct (is_str apiToken); cbn [negb]; [|discriminate].
  rewrite bind_lift.
  destruct (config_value _ "schoology" "calendar") as [calendar|];
    [|discriminate].
  destruct (is_str calendar); cbn [negb]; [|discriminate].
  intros H. injection H as <- <-. split; [reflexivity|].
  exists (expanduser e dir). cbn [fst snd getitem].
  rewrite lookup_store_same. split; reflexivity.
Qed.

(** X8. When [main] returns, the storage directory exists and the ledger file
    in it holds the serialized ledger as it is in memory at the end of the
    run. *)
Theorem main_success_persists (e : env) (w w' : world) :
  main e w = (Ok tt, w') ->
  exists dir,
    files w' dir = Directory /\
    files w' (dir ++ "/" ++ STORAGE_FILE_NAMES_imported)
    = File true (json_dump e (already_imported w')).
Proof.
  unfold main. unfold bind at 1.
  destruct (main_config e w) as [[cp|x] w0] eqn:Hconfig; [|discriminate].
  apply main_config_storage in Hconfig as (-> & dir & Hdir & Hpath).
  unfold bind at 1.
  destruct (main_fetch e (fst cp) (snd cp) w) as [[assignments|x] w1];
    [|discriminate].
  unfold main_push. rewrite bind_lift.
  destruct (config_value (fst cp) "todoist" "project") as [project|];
    [|discriminate].
  rewrite bind_lift.
  destruct (config_value (fst cp) "todoist" "labels") as [labels|];
    [|discriminate].
  unfold bind at 1.
  destruct (todoist_add e project labels assignments w1) as [[[]|x] w2];
    [|discriminate].
  rewrite bind_lift, Hdir, bind_lift. cbn [as_str].
  intros Hstore. apply store_imported_uids_ok in Hstore as [-> Hne].
  exists dir. rewrite Hpath in *. split.
  - rewrite write_node_other by exact Hne. apply write_node_same.
  - rewrite write_node_same. reflexivity.
Qed.

Lemma main_success_persists_witness :
  exists dir,
    files two_events_done dir = Directory /\
    files two_events_done (dir ++ "/" ++ STORAGE_FILE_NAMES_imported)
    = File true (json_dump two_events (already_imported two_events_done)).
Proof.
  apply (main_success_persists two_events (start empty_disk) two_events_done).
  vm_compute. reflexivity.
Defined.

(** ** More on [merge] *)

Lemma store_keys (items : list (string * value)) (key : string) (v : value) :
  exists extra, map fst (store items key v) = (map fst items ++ extra)%list.
Proof.
  induction items as [|[k w] rest IH]; simpl.
  - exists [key]. reflexivity.
  - destruct (String.eqb k key); simpl.
    + exists []. rewrite app_nil_r. reflexivity.
    + destruct IH as (extra & ->). exists extra. reflexivity.
Qed.

Lemma merge_items_keys (items : list (string * value)) :
  forall ditems r,
    merge_items items (VDict ditems) = Ok r ->
    exists ritems extra,
      r = VDict ritems /\ map fst ritems = (map fst ditems ++ extra)%list.
Proof.
  induction items as [|[key v] rest IH]; intros ditems r Hm.
  - simpl in Hm. injection Hm as <-. exists ditems, [].
    rewrite app_nil_r. split; reflexivity.
  - assert (Hstep : forall ditems',
              (exists extra, map fst ditems' = (map fst ditems ++ extra)%list) ->
              merge_items rest (VDict ditems') = Ok r ->
              exists ritems extra,
                r = VDict ritems /\
                map fst ritems = (map fst ditems ++ extra)%list).
    { intros ditems' (e1 & He1) Hrest.
      destruct (IH ditems' r Hrest) as (ritems & e2 & -> & He2).
      exists ritems, (e1 ++ e2)%list. split; [reflexivity|].
      rewrite He2, He1, app_assoc. reflexivity. }
    destruct v as [| | | | |sub];
      cbn [merge_items] in Hm; unfold rbind, setitem, setdefault in Hm;
      try (eapply Hstep; [|exact Hm]; apply store_keys).
    destruct (lookup ditems key) as [d|]; cbn [fst snd] in Hm.
    + destruct (merge (VDict sub) d) as [node|]; [|discriminate].
      apply (Hstep (store ditems key node)); [apply store_keys|exact Hm].
    + destruct (merge (VDict sub) (VDict [])) as [node|]; [|discriminate].
      apply (Hstep (store (store ditems key (VDict [])) key node));
        [|exact Hm].
      destruct (store_keys ditems key (VDict [])) as (e1 & He1).
      destruct (store_keys (store ditems key (VDict [])) key node) as (e2 & He2).
      exists (e1 ++ e2)%list. rewrite He2, He1, app_assoc. reflexivity.
Qed.

(** X10. Whenever [merge] returns, for any source at all, the result is a
    mapping that has every key of the destination, in the same order,
    followed by the keys that are new: a merge adds keys and changes
    values, it never removes or moves a key of the destination. *)
Theorem merge_keeps_keys (source : value) (ditems : list (string * value))
    (r : value) :
  merge source (VDict ditems) = Ok r ->
  exists ritems extra,
    r = VDict ritems /\ map fst ritems = (map fst ditems ++ extra)%list.
Proof.
  destruct source as [| | | | |items]; try discriminate.
  rewrite merge_dict. apply merge_items_keys.
Qed.

Lemma merge_keeps_keys_witness :
  exists ritems extra,
    sample_merged = VDict ritems /\
    map fst ritems
    = (map fst [ ("schoology", VDict [("calendar", VNone)]);
                 ("todoist",
                  VDict [ ("apiToken", VNone);
                          ("project", VStr "Inbox");
                          ("labels", VList [VStr "Todology"]) ]);
                 ("storage", VStr "~/.todology") ] ++ extra)%list.
Proof.
  apply (merge_keeps_keys sample_config). reflexivity.
Defined.

Lemma merge_fits_returns (O : value) :
  forall D, unique_keys O = true -> fits O D = true ->
            exists R, merge O D = Ok R.
Proof.
  induction O as [O Hleaf|items IH] using value_dict_ind; intros D Hu Hf.
  { apply fits_is_dict in Hf as (? & ? & -> & _). discriminate. }
  destruct (fits_is_dict _ _ Hf) as (? & ditems & E & ->). injection E as <-.
  destruct (merge_items_keywise items IH ditems Hu Hf) as (ritems & Hm & _).
  exists (VDict ritems). rewrite merge_dict. exact Hm.
Qed.

Lemma store_same (items : list (string * value)) (key : string) (v : value) :
  lookup items key = Some v -> store items key v = items.
Proof.
  induction items as [|[k w] rest IH]; simpl; [discriminate|].
  destruct (String.eqb_spec k key) as [->|Hne].
  - intros H. injection H as ->. reflexivity.
  - intros H. rewrite (IH H). reflexivity.
Qed.

Lemma In_has_key (items : list (string * value)) (k : string) (v : value) :
  In (k, v) items -> has_key items k = true.
Proof.
  unfold has_key. induction items as [|[k' v'] rest IH]; simpl; [contradiction|].
  intros [E|Hin].
  - injection E as -> ->. rewrite String.eqb_refl. reflexivity.
  - destruct (String.eqb k' k); [reflexivity|exact (IH Hin)].
Qed.

Lemma unique_keys_In (items : list (string * value)) (k : string) (v : value) :
  unique_keys (VDict items) = true ->
  In (k, v) items -> lookup items k = Some v.
Proof.
  induction items as [|[k' v'] rest IH]; [contradiction|].
  rewrite unique_keys_cons. intros Hu.
  apply andb_prop in Hu as [Hu Hrest]. apply andb_prop in Hu as [Hk _].
  apply negb_true_iff in Hk. simpl.
  intros [E|Hin].
  - injection E as -> ->. rewrite String.eqb_refl. reflexivity.
  - destruct (String.eqb_spec k' k) as [->|Hne].
    + rewrite (In_has_key _ _ _ Hin) in Hk. discriminate.
    + exact (IH Hrest Hin).
Qed.

(** A mapping that already holds what the items would put there is left
    as it is. *)
Lemma merge_items_fixed (ritems : list (string * value))
    (items : list (string * value)) :
  (forall k v, In (k, v) items ->
     match v with
     | VDict _ => exists m, lookup ritems k = Some m /\ merge v m = Ok m
     | _ => lookup ritems k = Some v
     end) ->
  merge_items items (VDict ritems) = Ok (VDict ritems).
Proof.
  induction items as [|[key v] rest IH]; intros H; [reflexivity|].
  assert (Hrest : merge_items rest (VDict ritems) = Ok (VDict ritems)).
  { apply IH. intros k w Hin. apply H. right. exact Hin. }
  specialize (H key v (or_introl eq_refl)).
  cbn [merge_items]. unfold rbind, setitem, setdefault.
  destruct v as [| | | | |sub]; try (rewrite (store_same _ _ _ H); exact Hrest).
  destruct H as (m & Hlk & Hm). rewrite Hlk. cbn [fst snd].
  rewrite Hm, (store_same _ _ _ Hlk). exact Hrest.
Qed.

(** X11. Merging the same document a second time changes nothing: if a
    document with distinct keys fits the destination and [merge] returns
    [R], then merging the document into [R] returns [R] again. *)
Theorem merge_twice (O : value) :
  forall D R,
    unique_keys O = true ->
    fits O D = true ->
    merge O D = Ok R ->
    merge O R = Ok R.
Proof.
  induction O as [O Hleaf|items IH] using value_dict_ind; intros D R Hu Hf Hm.
  { apply fits_is_dict in Hf as (? & ? & -> & _). discriminate. }
  destruct (fits_is_dict _ _ Hf) as (? & ditems & E & ->). injection E as <-.
  destruct (merge_items_keywise items) with (ditems := ditems)
    as (ritems & Hr & Hkw); try assumption.
  { intros k v _ d. apply merge_fits_returns. }
  rewrite merge_dict in *. rewrite Hr in Hm. injection Hm as <-.
  apply merge_items_fixed. intros k v Hin.
  pose proof (unique_keys_In _ _ _ Hu Hin) as Hlk.
  destruct (Hkw k) as (_ & K2 & K3).
  destruct v as [| | | | |o]; try (apply (K2 _ Hlk eq_refl)).
  destruct (K3 o Hlk) as (m & Hrk & Hmo).
  exists m. split; [exact Hrk|].
  apply (IH k (VDict o) Hin _ m (unique_keys_lookup _ _ _ Hu Hlk)
            (fits_lookup _ _ _ _ Hf Hlk) Hmo).
Qed.

Lemma merge_twice_witness :
  merge sample_config sample_merged = Ok sample_merged.
Proof.
  apply (merge_twice sample_config DEFAULT_CONFIG sample_merged);
    reflexivity.
Defined.

(** The example of the docstring of [merge]. *)
Example merge_docstring :
  merge (VDict [("first", VDict [("all_rows",
                   VDict [("fail", VStr "cat"); ("number", VStr "5")])])])
        (VDict [("first", VDict [("all_rows",
                   VDict [("pass", VStr "dog"); ("number", VStr "1")])])])
  = Ok (VDict [("first", VDict [("all_rows",
                 VDict [("pass", VStr "dog"); ("number", VStr "5");
                        ("fail", VStr "cat")])])]).
Proof. reflexivity. Qed.

(** ** The first call in a process *)

Section FirstCall.

Import RateLimit.
Local Open Scope Q_scope.

(** X12. [last_time_called] starts at [0.0], so the decorator measures the
    first invocation of a process against the reading of [time.clock()]
    itself: while that reading is below 2 the first call is put off by at
    least the difference, and from 2 on it begins at once. Either way the
    function is called. *)
Theorem first_call_waits (i : invocation) (wall0 clock0 : Q) :
  0 <= oversleep i ->
  exists began ended,
    calls (snd (todoist_add i (boot wall0 clock0))) = [(began, ended)] /\
    (clock0 + counted (idle i) < 2 ->
     wall0 + real (idle i) + (2 - (clock0 + counted (idle i))) <= began) /\
    (2 <= clock0 + counted (idle i) -> began == wall0 + real (idle i)).
Proof.
  intros Hover. unfold todoist_add, rate_limited, boot.
  change (1 / (1 # 2)) with (2 # 1).
  set (s1 := pass (idle i) (mkstate wall0 clock0 0 [])).
  set (wait := (2 # 1) - (clock s1 - last_time_called s1)).
  set (s2 := if Qlt_le_dec 0 wait then sleep wait i s1 else s1).
  exists (wall s2), (wall (pass (running i) s2)).
  assert (Hcalls : calls s2 = []).
  { unfold s2. destruct (Qlt_le_dec 0 wait); reflexivity. }
  split.
  - destruct (outcome i); simpl; rewrite Hcalls; reflexivity.
  - clear Hcalls. subst s2 wait s1. unfold sleep, pass. simpl.
    destruct (Qlt_le_dec _ _) as [Hw|Hw]; simpl; split; intros H; lra.
Qed.

Lemma first_call_waits_witness :
  exists began ended,
    calls (snd (todoist_add
                  (mkinvocation (mklapse 0 0) (1 # 1000) 0
                                (mklapse (1 # 2) (1 # 100)) (Ok tt))
                  (boot 1000 (3 # 10))))
    = [(began, ended)] /\
    ((3 # 10) + 0 < 2 -> 1000 + 0 + (2 - ((3 # 10) + 0)) <= began) /\
    (2 <= (3 # 10) + 0 -> began == 1000 + 0).
Proof.
  apply (first_call_waits
           (mkinvocation (mklapse 0 0) (1 # 1000) 0
                         (mklapse (1 # 2) (1 # 100)) (Ok tt))
           1000 (3 # 10)).
  unfold Qle. simpl. lia.
Defined.

End FirstCall.

(** ** The requests of the push loop *)




(** X14. With a ledger in memory that is not a list (the ledger file held some
    other JSON document), the loop creates and updates the task of the
    first assignment, if Todoist accepts both requests, and only then
    raises [AttributeError]: the ledger is unchanged and no further
    assignment is pushed. *)
Theorem push_loop_needs_a_list (e : env) (project : Z) (labels : list Z)
    (a : Assignment) (rest : list Assignment) (w : world) (t0 : task) :
  (forall l, already_imported w <> VList l) ->
  project_add_task e (network w) project (task_content a) = Ok t0 ->
  task_update e (network w ++ [AddTask project (task_content a)])
              (mktask (task_id t0) (date_str (due a)) (date_str (due a))
                      (task_labels t0 ++ labels)) = Ok tt ->
  for_each (a :: rest) (push e project labels) w
  = (Raise AttributeError,
     mkworld (files w) (stdout w)
             (network w
                ++ push_requests project
                     (a, mktask (task_id t0) (date_str (due a))
                                (date_str (due a)) (task_labels t0 ++ labels)))
             (already_imported w)).
Proof.
  intros Hledger Hadd Hupdate.
  cbn [for_each]. apply bind_raise.
  unfold push, bind, call, lift, get_already_imported, set_already_imported.
  cbn [network files stdout already_imported].
  fold (task_content a). rewrite Hadd, Hupdate.
  destruct (already_imported w) as [| | | |l|items]; cbn [append];
    try (rewrite <- app_assoc; reflexivity).
  exfalso. exact (Hledger l eq_refl).
Qed.

Lemma push_loop_needs_a_list_witness :
  for_each [essay; lab] (push calm 1 [4; 6]) with_object
  = (Raise AttributeError, with_object_pushed).
Proof.
  apply (push_loop_needs_a_list calm 1 [4; 6] essay [lab] with_object
           (mktask 0 "" "" [])).
  - intros l. discriminate.
  - reflexivity.
  - reflexivity.
Defined.

(** ** Witnesses for the cutoff and the feed address *)

Lemma start_of_last_month_before_witness :
  date_lt (mkdate 2015 12 1) (mkdate 2016 1 31) = true.
Proof.
  apply (start_of_last_month_before (mkdate 2016 1 31) (mkdate 2015 12 1));
    reflexivity.
Defined.

Lemma feed_url_when_host_stops_witness :
  feed_url ("webcal://" ++ String "s" "chool.example.org/feed")
  = "https://" ++ String "s" "chool.example.org/feed" /\
  feed_url (String "s" "chool.example.org/feed")
  = "https://" ++ String "s" "chool.example.org/feed".
Proof.
  apply (feed_url_when_host_stops "s" "chool.example.org/feed"). reflexivity.
Defined.

(** ** A run that fails writes no file *)





(** ** One label per item of the configuration *)

Lemma comprehension_length {A B} (xs : list A) (f : A -> M B) :
  forall w w' ys,
    comprehension xs f w = (Ok ys, w') -> length ys = length xs.
Proof.
  induction xs as [|x rest IH]; intros w w' ys H.
  - simpl in H. injection H as <- _. reflexivity.
  - simpl in H. unfold bind at 1 in H.
    destruct (f x w) as [[y|err] w1]; [|discriminate].
    unfold bind at 1 in H.
    destruct (comprehension rest f w1) as [[ys'|err] w2] eqn:Hrest;
      [|discriminate].
    injection H as <- _. simpl. rewrite (IH _ _ _ Hrest). reflexivity.
Qed.

Lemma length_list_ascii (s : string) :
  length (list_ascii_of_string s) = String.length s.
Proof. induction s as [|c s IH]; simpl; [reflexivity|rewrite IH; reflexivity]. Qed.

(** X17. When the project and the labels are resolved, there is one label id
    for each item that iterating over [todoist.labels] yields: one per
    element of a sequence, and, if the configuration gives a plain string,
    one per character of that string. *)
Theorem resolve_one_label_per_item (e : env) (projectName labels : value)
    (w w' : world) (pl : Z * list Z) :
  resolve e projectName labels w = (Ok pl, w') ->
  (forall l, labels = VList l -> length (snd pl) = length l) /\
  (forall s, labels = VStr s -> length (snd pl) = String.length s).
Proof.
  unfold resolve. unfold bind at 1.
  destruct (call _ _ w) as [[project|x] w0]; [|discriminate].
  rewrite bind_lift.
  destruct (iterate labels) as [names|] eqn:Hnames; [|discriminate].
  unfold bind at 1.
  destruct (comprehension names (get_label e) w0) as [[ids|x] w1] eqn:Hids;
    [|discriminate].
  apply comprehension_length in Hids.
  unfold bind at 1.
  destruct project as [p|].
  - cbn [ret]. intros H. injection H as <- _. cbn [snd]. split.
    + intros l ->. injection Hnames as <-. exact Hids.
    + intros s ->. injection Hnames as <-.
      rewrite Hids, length_map. apply length_list_ascii.
  - destruct (call _ _ w1) as [[p|x] w2]; [|discriminate].
    cbn [ret]. intros H. injection H as <- _. cbn [snd]. split.
    + intros l ->. injection Hnames as <-. exact Hids.
    + intros s ->. injection Hnames as <-.
      rewrite Hids, length_map. apply length_list_ascii.
Qed.

Lemma resolve_one_label_per_item_witness :
  (forall l, VStr "Todology" = VList l ->
             length (snd (fst string_labels)) = length l) /\
  (forall s, VStr "Todology" = VStr s ->
             length (snd (fst string_labels)) = String.length s).
Proof.
  apply (resolve_one_label_per_item calm (VStr "Inbox") (VStr "Todology")
           with_u0 (snd string_labels) (fst string_labels)).
  vm_compute. reflexivity.
Defined.
